(** * The forward renderer of [source/common/systems/forward-renderer.cpp]

    A shallow embedding of [our::ForwardRenderer] (initialize, destroy and
    render) and the properties of its per-frame orchestration.

    Modelling choices, all visible in the definitions below:
    - [float] is an exact scalar type [F] with the ring operations and a
      strict total order ([glm] is itself a template over the scalar);
      rounding, infinities and NaN are outside the model.  Every
      definition computes at [F := Z].
    - Pointers into the scene are addresses [(entity index, component
      index)] into the list of entities the world yields this frame, so
      that the light lists of the renderer alias the components that
      traversal writes to.
    - Calls into OpenGL and into the collaborators (meshes, shaders,
      samplers, textures, materials) append to a log of events; object
      names are handed out by a counter. *)

From Stdlib Require Import ZArith Ring.
From stdpp Require Import gmap strings list pretty.

(** ** Scalars

    What this file asks of [float]: the constants 0 and 1, sum, difference,
    product, negation and [<].  The laws are those of exact arithmetic. *)

Class Scalar (F : Type) := {
  f0 : F;
  f1 : F;
  fadd : F → F → F;
  fsub : F → F → F;
  fmul : F → F → F;
  fopp : F → F;
  fltb : F → F → bool
}.

Class ScalarLaws (F : Type) `{Scalar F} : Prop := {
  scalar_ring : ring_theory f0 f1 fadd fmul fsub fopp (@eq F);
  fltb_irrefl a : fltb a a = false;
  fltb_trans a b c : fltb a b = true → fltb b c = true → fltb a c = true;
  fltb_connex a b : fltb a b = false → fltb b a = false → a = b
}.

Declare Scope scalar_scope.
Delimit Scope scalar_scope with F.
Notation "a + b" := (fadd a b) : scalar_scope.
Notation "a - b" := (fsub a b) : scalar_scope.
Notation "a * b" := (fmul a b) : scalar_scope.
Notation "- a" := (fopp a) : scalar_scope.
Notation "a <? b" := (fltb a b) : scalar_scope.

(** [a >= b] on scalars: not below. *)
Definition fge {F} `{Scalar F} (a b : F) : Prop := fltb b a = true ∨ a = b.

(** ** Handles, enumerations and addresses *)

(** Objects owned by the collaborators are known here by their names. *)
Definition GLuint : Type := nat.
Definition Mesh : Type := nat.
Definition ShaderProgram : Type := nat.
Definition Texture2D : Type := nat.
Definition Sampler : Type := nat.

(** A component pointer: the entity's place in this frame's enumeration
    and the component's place in the entity. *)
Definition ptr : Type := nat * nat.

Inductive GLenum :=
| GL_VERTEX_SHADER | GL_FRAGMENT_SHADER
| GL_CW
| GL_TEXTURE_MIN_FILTER | GL_TEXTURE_MAG_FILTER | GL_TEXTURE_WRAP_S | GL_TEXTURE_WRAP_T
| GL_LINEAR | GL_REPEAT | GL_CLAMP_TO_EDGE
| GL_FRAMEBUFFER | GL_COLOR_ATTACHMENT0 | GL_DEPTH_ATTACHMENT | GL_TEXTURE_2D
| GL_RGBA8 | GL_DEPTH_COMPONENT24
| GL_COLOR_BUFFER_BIT | GL_DEPTH_BUFFER_BIT
| GL_TRIANGLES.

#[global] Instance GLenum_eq_dec : EqDecision GLenum.
Proof. solve_decision. Defined.

(** The dynamic type of a material; [dynamic_cast<DefaultMaterial*>]
    succeeds on the first only. *)
Inductive MaterialKind := DefaultMaterial | TexturedMaterial | OtherMaterial.

(** Modelled from the spec: [PipelineState] (pipeline-state.hpp is not part
    of this file), the pipeline state of a material (depth test and write,
    face culling), by the fields this file assigns; [None] stands for the
    member's initial value in that header. *)
Record PipelineState := {
  faceCulling_enabled : option bool;
  faceCulling_frontFace : option GLenum;
  depthMask : option bool;
  depthTesting_enabled : option bool
}.

(** [PipelineState{}]. *)
Definition PipelineState_init : PipelineState :=
  {| faceCulling_enabled := None; faceCulling_frontFace := None;
     depthMask := None; depthTesting_enabled := None |}.

(** [nlohmann::json::type_error], thrown by a read at the wrong type. *)
Inductive exception := type_error.

(** [(GLint) n] for a [size_t] n: the low 32 bits, signed. *)
Definition GLint_cast (n : Z) : Z := ((n + 2 ^ 31) `mod` 2 ^ 32 - 2 ^ 31)%Z.

Section Model.
Context {F : Type} {SF : Scalar F}.

(** ** The parts of glm the renderer calls

    Vectors by component, matrices by column as glm stores them; the
    operators associate as in glm's own definitions. *)

Record vec3 := Vec3 { v3x : F; v3y : F; v3z : F }.
Record vec4 := Vec4 { v4x : F; v4y : F; v4z : F; v4w : F }.
Record mat4 := Mat4 { col0 : vec4; col1 : vec4; col2 : vec4; col3 : vec4 }.
Definition ivec2 : Type := Z * Z.

(** [glm::vec3(v)] of a [vec4] and [glm::vec4(v, w)] of a [vec3]. *)
Definition vec3_of_vec4 (v : vec4) : vec3 := Vec3 (v4x v) (v4y v) (v4z v).
Definition vec4_of_vec3 (v : vec3) (w : F) : vec4 := Vec4 (v3x v) (v3y v) (v3z v) w.

Definition vec3_sub (a b : vec3) : vec3 :=
  Vec3 (v3x a - v3x b)%F (v3y a - v3y b)%F (v3z a - v3z b)%F.

(** [glm::dot] on [vec3]: the componentwise product summed left to right. *)
Definition dot (a b : vec3) : F :=
  (v3x a * v3x b + v3y a * v3y b + v3z a * v3z b)%F.

Definition vec4_add (a b : vec4) : vec4 :=
  Vec4 (v4x a + v4x b)%F (v4y a + v4y b)%F (v4z a + v4z b)%F (v4w a + v4w b)%F.
Definition vec4_scale (a : vec4) (s : F) : vec4 :=
  Vec4 (v4x a * s)%F (v4y a * s)%F (v4z a * s)%F (v4w a * s)%F.

(** [mat4 * vec4]: [(m[0]*v[0] + m[1]*v[1]) + (m[2]*v[2] + m[3]*v[3])]. *)
Definition mat4_mul_vec4 (m : mat4) (v : vec4) : vec4 :=
  vec4_add
    (vec4_add (vec4_scale (col0 m) (v4x v)) (vec4_scale (col1 m) (v4y v)))
    (vec4_add (vec4_scale (col2 m) (v4z v)) (vec4_scale (col3 m) (v4w v))).

(** The linear combination of the columns of [a] by the entries of [b],
    one column of [mat4 * mat4]. *)
Definition mat4_combine (a : mat4) (b : vec4) : vec4 :=
  vec4_add
    (vec4_add
       (vec4_add (vec4_scale (col0 a) (v4x b)) (vec4_scale (col1 a) (v4y b)))
       (vec4_scale (col2 a) (v4z b)))
    (vec4_scale (col3 a) (v4w b)).

Definition mat4_mul (a b : mat4) : mat4 :=
  Mat4 (mat4_combine a (col0 b)) (mat4_combine a (col1 b))
       (mat4_combine a (col2 b)) (mat4_combine a (col3 b)).

(** [glm::mat4(1.0f)]. *)
Definition mat4_identity : mat4 :=
  Mat4 (Vec4 f1 f0 f0 f0) (Vec4 f0 f1 f0 f0) (Vec4 f0 f0 f1 f0) (Vec4 f0 f0 f0 f1).

(** [glm::translate(m, v)]: the last column becomes
    [m[0]*v[0] + m[1]*v[1] + m[2]*v[2] + m[3]]. *)
Definition translate (m : mat4) (v : vec3) : mat4 :=
  Mat4 (col0 m) (col1 m) (col2 m)
       (vec4_add
          (vec4_add
             (vec4_add (vec4_scale (col0 m) (v3x v)) (vec4_scale (col1 m) (v3y v)))
             (vec4_scale (col2 m) (v3z v)))
          (col3 m)).

(** [glm::scale(m, v)]. *)
Definition scale (m : mat4) (v : vec3) : mat4 :=
  Mat4 (vec4_scale (col0 m) (v3x v)) (vec4_scale (col1 m) (v3y v))
       (vec4_scale (col2 m) (v3z v)) (col3 m).

(** ** [std::sort]

    The standard library's sort, for a comparator [comp] that says when
    its first argument goes before its second.  Its contract is that
    the result is a rearrangement of the input in which no element goes
    before its predecessor; insertion into an ordered list meets it.
    Where the comparator does not separate two elements the standard
    leaves their order open, and insertion keeps the one they came in:
    the properties below state the contract, not that order. *)

Fixpoint sort_insert {A} (comp : A → A → bool) (a : A) (l : list A) : list A :=
  match l with
  | [] => [a]
  | b :: l' => if comp b a then b :: sort_insert comp a l' else a :: b :: l'
  end.

Definition std_sort {A} (comp : A → A → bool) (l : list A) : list A :=
  foldr (sort_insert comp) [] l.

(** ** Scene data *)

(** A value handed to [ShaderProgram::set]. *)
Inductive uniform :=
| UInt (n : Z)
| UFloat (x : F)
| UVec3 (v : vec3)
| UVec4 (v : vec4)
| UMat4 (m : mat4).

(** Modelled from the spec: a material (material.hpp is not part of this
    file): the shader, texture and sampler it binds, its pipeline state
    and tint, and the flags [transparent] and [isSkybox], under the member
    names this file uses; [mat_kind] is its dynamic type. *)
Record Material := {
  mat_kind : MaterialKind;
  shader : ShaderProgram;
  texture : option Texture2D;
  sampler : option Sampler;
  pipelineState : PipelineState;
  tint : vec4;
  transparent : bool;
  isSkybox : bool
}.

Definition is_DefaultMaterial (m : Material) : bool :=
  match mat_kind m with DefaultMaterial => true | _ => false end.

(** Modelled from the spec: [RenderCommand] (forward-renderer.hpp is not
    part of this file): world transform, world centre, mesh and material,
    under the member names this file uses. *)
Record RenderCommand := {
  localToWorld : mat4;
  center : vec3;
  mesh : Mesh;
  material : Material
}.

(** Modelled from the spec: the camera component (camera.hpp is not part
    of this file): it provides a view matrix, a projection matrix for an
    output size, and the scale factor [orthoHeight]. *)
Record CameraComponent := {
  getViewMatrix : mat4;
  getProjectionMatrix : ivec2 → mat4;
  orthoHeight : F
}.

(** Modelled from the spec: the mesh renderer (mesh-renderer.hpp is not
    part of this file), a mesh and a material. *)
Record MeshRendererComponent := {
  mr_mesh : Mesh;
  mr_material : Material
}.

(** Modelled from the spec: the three light records (their headers are not
    part of this file), under the member names this file uses.  Fields
    that this file only forwards to the shader are kept as the value
    forwarded; those it computes with are vectors. *)
Record DirectionalLight := {
  dl_direction : uniform;
  dl_intensity : uniform;
  dl_color : uniform
}.

Record SpotLight := {
  sl_worldPosition : vec3;
  sl_intensity : uniform;
  sl_color : uniform;
  sl_lightDecay : uniform
}.

Record ConeLight := {
  cl_direction : vec3;
  cl_worldPosition : vec3;
  cl_worldDirection : vec3;
  cl_intensity : uniform;
  cl_color : uniform;
  cl_range : uniform;
  cl_smoothing : uniform;
  cl_lightDecay : uniform
}.

Inductive Component :=
| CameraC (c : CameraComponent)
| MeshRendererC (m : MeshRendererComponent)
| DirectionalLightC (l : DirectionalLight)
| SpotLightC (l : SpotLight)
| ConeLightC (l : ConeLight)
| OtherC.

(** Modelled from the spec: an entity (entity.hpp is not part of this
    file): it exposes its world transform, the result of
    [getLocalToWorldMatrix()], and owns components of various kinds. *)
Record Entity := {
  getLocalToWorldMatrix : mat4;
  components : list Component
}.

(** [world->getEntities()], in the order this frame's loop meets them. *)
Abbreviation World := (list Entity).

(** [dynamic_cast<T*>] on a component, for each [T] the renderer asks for. *)
Definition as_Camera (c : Component) : option CameraComponent :=
  match c with CameraC x => Some x | _ => None end.
Definition as_MeshRenderer (c : Component) : option MeshRendererComponent :=
  match c with MeshRendererC x => Some x | _ => None end.
Definition as_DirectionalLight (c : Component) : option DirectionalLight :=
  match c with DirectionalLightC x => Some x | _ => None end.
Definition as_SpotLight (c : Component) : option SpotLight :=
  match c with SpotLightC x => Some x | _ => None end.
Definition as_ConeLight (c : Component) : option ConeLight :=
  match c with ConeLightC x => Some x | _ => None end.

(** Modelled from the spec: [Entity::getComponent<T>] (entity.hpp is not
    part of this file), the lookup by capability kind that returns zero
    or one instance: the first component of the kind, with its place. *)
Fixpoint getComponent_from {T} (cast : Component → option T) (j : nat)
    (cs : list Component) : option (nat * T) :=
  match cs with
  | [] => None
  | c :: cs' =>
      match cast c with
      | Some t => Some (j, t)
      | None => getComponent_from cast (S j) cs'
      end
  end.
Definition getComponent {T} (cast : Component → option T) (e : Entity) : option (nat * T) :=
  getComponent_from cast 0 (components e).

(** Modelled from the spec: [Entity::getAllComponents<T>] (entity.hpp),
    the lookup for repeatable kinds: every component of the kind, in the
    entity's order. *)
Fixpoint getAllComponents_from {T} (cast : Component → option T) (j : nat)
    (cs : list Component) : list (nat * T) :=
  match cs with
  | [] => []
  | c :: cs' =>
      match cast c with
      | Some t => (j, t) :: getAllComponents_from cast (S j) cs'
      | None => getAllComponents_from cast (S j) cs'
      end
  end.
Definition getAllComponents {T} (cast : Component → option T) (e : Entity) : list (nat * T) :=
  getAllComponents_from cast 0 (components e).

(** Dereferencing a component pointer in the scene. *)
Definition deref (world : World) (p : ptr) : option Component :=
  e ← world !! p.1; components e !! p.2.

(** ** The graphics log *)

Inductive gl_event :=
| mesh_utils_sphere (segments : ivec2) (result : Mesh)
| new_ShaderProgram (result : ShaderProgram)
| ShaderProgram_attach (sh : ShaderProgram) (file : string) (type : GLenum)
| ShaderProgram_link (sh : ShaderProgram)
| ShaderProgram_set (sh : ShaderProgram) (name : string) (value : uniform)
| texture_utils_loadImage (file : string) (generate_mipmap : bool) (result : Texture2D)
| texture_utils_empty (format : GLenum) (size : ivec2) (result : Texture2D)
| new_Sampler (result : Sampler)
| Sampler_set (s : Sampler) (parameter value : GLenum)
| Material_setup (m : Material)
| Mesh_draw (m : Mesh)
| glGenFramebuffers (result : GLuint)
| glBindFramebuffer (target : GLenum) (framebuffer : GLuint)
| glFramebufferTexture2D (target attachment textarget : GLenum) (tex : GLuint) (level : Z)
| glGenVertexArrays (result : GLuint)
| glBindVertexArray (array : GLuint)
| glViewport (x y width height : Z)
| glClearColor (r g b a : F)
| glClearDepth (d : F)
| glColorMask (r g b a : bool)
| glDepthMask (flag : bool)
| glClear (mask : list GLenum)
| glDrawArrays (mode : GLenum) (first count : Z).

(** The graphics context and the collaborators' heaps, as far as this
    file can tell: what was called, and the next free object name. *)
Record GL := {
  next_name : nat;
  log : list gl_event
}.

(** ** The renderer's members

    Modelled from the spec: the members of [ForwardRenderer]
    (forward-renderer.hpp is not part of this file), as this file names
    them; a pointer member that may be null is an [option]. *)

Record ForwardRenderer := {
  windowSize : ivec2;
  areaLight : vec3;
  skySphere : option Mesh;
  skyMaterial : option Material;
  postprocessFrameBuffer : GLuint;
  postProcessVertexArray : GLuint;
  colorTarget : option Texture2D;
  depthTarget : option Texture2D;
  postprocessMaterial : option Material;
  opaqueCommands : list RenderCommand;
  transparentCommands : list RenderCommand;
  directionalLights : list ptr;
  spotLights : list ptr;
  coneLights : list ptr
}.

Definition set_windowSize v (r : ForwardRenderer) : ForwardRenderer :=
  let 'Build_ForwardRenderer _ b c d e f g h i j k l m n := r in
  Build_ForwardRenderer v b c d e f g h i j k l m n.
Definition set_areaLight v (r : ForwardRenderer) : ForwardRenderer :=
  let 'Build_ForwardRenderer a _ c d e f g h i j k l m n := r in
  Build_ForwardRenderer a v c d e f g h i j k l m n.
Definition set_skySphere v (r : ForwardRenderer) : ForwardRenderer :=
  let 'Build_ForwardRenderer a b _ d e f g h i j k l m n := r in
  Build_ForwardRenderer a b v d e f g h i j k l m n.
Definition set_skyMaterial v (r : ForwardRenderer) : ForwardRenderer :=
  let 'Build_ForwardRenderer a b c _ e f g h i j k l m n := r in
  Build_ForwardRenderer a b c v e f g h i j k l m n.
Definition set_postprocessFrameBuffer v (r : ForwardRenderer) : ForwardRenderer :=
  let 'Build_ForwardRenderer a b c d _ f g h i j k l m n := r in
  Build_ForwardRenderer a b c d v f g h i j k l m n.
Definition set_postProcessVertexArray v (r : ForwardRenderer) : ForwardRenderer :=
  let 'Build_ForwardRenderer a b c d e _ g h i j k l m n := r in
  Build_ForwardRenderer a b c d e v g h i j k l m n.
Definition set_colorTarget v (r : ForwardRenderer) : ForwardRenderer :=
  let 'Build_ForwardRenderer a b c d e f _ h i j k l m n := r in
  Build_ForwardRenderer a b c d e f v h i j k l m n.
Definition set_depthTarget v (r : ForwardRenderer) : ForwardRenderer :=
  let 'Build_ForwardRenderer a b c d e f g _ i j k l m n := r in
  Build_ForwardRenderer a b c d e f g v i j k l m n.
Definition set_postprocessMaterial v (r : ForwardRenderer) : ForwardRenderer :=
  let 'Build_ForwardRenderer a b c d e f g h _ j k l m n := r in
  Build_ForwardRenderer a b c d e f g h v j k l m n.
Definition set_opaqueCommands v (r : ForwardRenderer) : ForwardRenderer :=
  let 'Build_ForwardRenderer a b c d e f g h i _ k l m n := r in
  Build_ForwardRenderer a b c d e f g h i v k l m n.
Definition set_transparentCommands v (r : ForwardRenderer) : ForwardRenderer :=
  let 'Build_ForwardRenderer a b c d e f g h i j _ l m n := r in
  Build_ForwardRenderer a b c d e f g h i j v l m n.
Definition set_directionalLights v (r : ForwardRenderer) : ForwardRenderer :=
  let 'Build_ForwardRenderer a b c d e f g h i j k _ m n := r in
  Build_ForwardRenderer a b c d e f g h i j k v m n.
Definition set_spotLights v (r : ForwardRenderer) : ForwardRenderer :=
  let 'Build_ForwardRenderer a b c d e f g h i j k l _ n := r in
  Build_ForwardRenderer a b c d e f g h i j k l v n.
Definition set_coneLights v (r : ForwardRenderer) : ForwardRenderer :=
  let 'Build_ForwardRenderer a b c d e f g h i j k l m _ := r in
  Build_ForwardRenderer a b c d e f g h i j k l m v.

(** ** Configuration *)

(** A [nlohmann::json] value. *)
#[local] Unset Elimination Schemes.
Inductive json :=
| JNull
| JBool (b : bool)
| JNumber (x : F)
| JString (s : string)
| JArray (items : list json)
| JObject (members : list (string * json)).
#[local] Set Elimination Schemes.

(** [get<std::string>()]: a string or a type error. *)
Definition string_from_json (j : json) : exception + string :=
  match j with JString s => inr s | _ => inl type_error end.

(** Modelled from the spec: the [glm::vec3] reader of deserialize-utils.hpp
    (not part of this file); [areaLight] is a 3-component colour, read
    from an array of three numbers. *)
Definition vec3_from_json (j : json) : exception + vec3 :=
  match j with
  | JArray [JNumber x; JNumber y; JNumber z] => inr (Vec3 x y z)
  | _ => inl type_error
  end.

(** ** Effects of [initialize]

    Statements run on the renderer's members and the graphics context;
    a throw leaves both as they are at that point. *)

Definition M (A : Type) : Type :=
  ForwardRenderer * GL → (ForwardRenderer * GL) * (exception + A).

#[export] Instance M_ret : MRet M := λ A a s, (s, inr a).
#[export] Instance M_bind : MBind M := λ A B f m s,
  match m s with
  | (s', inr a) => f a s'
  | (s', inl e) => (s', inl e)
  end.

Definition throw {A} (e : exception) : M A := λ s, (s, inl e).

(** An assignment to a member of [this]. *)
Definition assign (f : ForwardRenderer → ForwardRenderer) : M unit :=
  λ s, ((f s.1, s.2), inr ()).

(** A call that returns nothing. *)
Definition call (e : gl_event) : M unit :=
  λ s, ((s.1, {| next_name := next_name s.2; log := log s.2 ++ [e] |}), inr ()).

(** A call that creates an object: the object gets a name that was never
    handed out (and is not 0, the default framebuffer). *)
Definition create (e : nat → gl_event) : M nat :=
  λ s, let n := S (next_name s.2) in
       ((s.1, {| next_name := n; log := log s.2 ++ [e n] |}), inr n).

(** [config.contains(key)] and [config.value<T>(key, default)]. *)
Definition contains (config : gmap string json) (key : string) : bool :=
  bool_decide (is_Some (config !! key)).

Definition value {T} (read : json → exception + T) (config : gmap string json)
    (key : string) (default : T) : M T :=
  match config !! key with
  | None => mret default
  | Some j => match read j with inr t => mret t | inl e => throw e end
  end.

(** The field values of a material as its constructor leaves them
    (material.hpp is not part of this file). *)
Variable constructed : MaterialKind → Material.

(** ** [ForwardRenderer::initialize] *)

Definition initialize_sky (config : gmap string json) : M unit :=
  sphere ← create (mesh_utils_sphere (16, 16)%Z);
  assign (set_skySphere (Some sphere));;
  skyShader ← create new_ShaderProgram;
  call (ShaderProgram_attach skyShader "assets/shaders/default.vert" GL_VERTEX_SHADER);;
  call (ShaderProgram_attach skyShader "assets/shaders/default.frag" GL_FRAGMENT_SHADER);;
  call (ShaderProgram_link skyShader);;
  let skyPipelineState :=
    {| faceCulling_enabled := Some true; faceCulling_frontFace := Some GL_CW;
       depthMask := Some true; depthTesting_enabled := Some true |} in
  skyTextureFile ← value string_from_json config "sky" "";
  skyTexture ← create (texture_utils_loadImage skyTextureFile false);
  skySampler ← create new_Sampler;
  call (Sampler_set skySampler GL_TEXTURE_MIN_FILTER GL_LINEAR);;
  call (Sampler_set skySampler GL_TEXTURE_MAG_FILTER GL_LINEAR);;
  call (Sampler_set skySampler GL_TEXTURE_WRAP_S GL_REPEAT);;
  call (Sampler_set skySampler GL_TEXTURE_WRAP_T GL_CLAMP_TO_EDGE);;
  assign (set_skyMaterial (Some
    {| mat_kind := DefaultMaterial;
       shader := skyShader;
       texture := Some skyTexture;
       sampler := Some skySampler;
       pipelineState := skyPipelineState;
       tint := Vec4 f1 f1 f1 f1;
       transparent := false;
       isSkybox := true |})).

(** A texture is known by its OpenGL name, so [getOpenGLName()] is the
    handle itself. *)
Definition initialize_postprocess (windowSize : ivec2) (config : gmap string json) : M unit :=
  fb ← create glGenFramebuffers;
  assign (set_postprocessFrameBuffer fb);;
  call (glBindFramebuffer GL_FRAMEBUFFER fb);;
  color ← create (texture_utils_empty GL_RGBA8 windowSize);
  assign (set_colorTarget (Some color));;
  call (glFramebufferTexture2D GL_FRAMEBUFFER GL_COLOR_ATTACHMENT0 GL_TEXTURE_2D color 0);;
  depth ← create (texture_utils_empty GL_DEPTH_COMPONENT24 windowSize);
  assign (set_depthTarget (Some depth));;
  call (glFramebufferTexture2D GL_FRAMEBUFFER GL_DEPTH_ATTACHMENT GL_TEXTURE_2D depth 0);;
  call (glBindFramebuffer GL_FRAMEBUFFER 0);;
  vao ← create glGenVertexArrays;
  assign (set_postProcessVertexArray vao);;
  postprocessSampler ← create new_Sampler;
  call (Sampler_set postprocessSampler GL_TEXTURE_MIN_FILTER GL_LINEAR);;
  call (Sampler_set postprocessSampler GL_TEXTURE_MAG_FILTER GL_LINEAR);;
  call (Sampler_set postprocessSampler GL_TEXTURE_WRAP_S GL_CLAMP_TO_EDGE);;
  call (Sampler_set postprocessSampler GL_TEXTURE_WRAP_T GL_CLAMP_TO_EDGE);;
  postprocessShader ← create new_ShaderProgram;
  call (ShaderProgram_attach postprocessShader "assets/shaders/fullscreen.vert" GL_VERTEX_SHADER);;
  file ← value string_from_json config "postprocess" "";
  call (ShaderProgram_attach postprocessShader file GL_FRAGMENT_SHADER);;
  call (ShaderProgram_link postprocessShader);;
  let m := constructed TexturedMaterial in
  assign (set_postprocessMaterial (Some
    {| mat_kind := TexturedMaterial;
       shader := postprocessShader;
       texture := Some color;
       sampler := Some postprocessSampler;
       pipelineState :=
         {| faceCulling_enabled := faceCulling_enabled (pipelineState m);
            faceCulling_frontFace := faceCulling_frontFace (pipelineState m);
            depthMask := Some false;
            depthTesting_enabled := depthTesting_enabled (pipelineState m) |};
       tint := tint m;
       transparent := transparent m;
       isSkybox := isSkybox m |})).

Definition initialize (windowSize : ivec2) (config : gmap string json) : M unit :=
  assign (set_windowSize windowSize);;
  light ← value vec3_from_json config "areaLight" (Vec3 f1 f1 f1);
  assign (set_areaLight light);;
  (if contains config "sky" then initialize_sky config else mret ());;
  (if contains config "postprocess" then initialize_postprocess windowSize config
   else mret ()).

(** ** [ForwardRenderer::render]: traversal *)

(** [sl->worldPosition = glm::vec3(position)] through a pointer to a
    spot light. *)
Definition SpotLight_write (position : vec4) (c : Component) : Component :=
  match c with
  | SpotLightC l =>
      SpotLightC
        {| sl_worldPosition := vec3_of_vec4 position;
           sl_intensity := sl_intensity l;
           sl_color := sl_color l;
           sl_lightDecay := sl_lightDecay l |}
  | _ => c
  end.

(** The two assignments through a pointer [k] to a cone light. *)
Definition ConeLight_write (localToWorld : mat4) (position : vec4) (c : Component) : Component :=
  match c with
  | ConeLightC k =>
      ConeLightC
        {| cl_direction := cl_direction k;
           cl_worldPosition := vec3_of_vec4 position;
           cl_worldDirection :=
             vec3_of_vec4 (mat4_mul_vec4 localToWorld (vec4_of_vec3 (cl_direction k) f0));
           cl_intensity := cl_intensity k;
           cl_color := cl_color k;
           cl_range := cl_range k;
           cl_smoothing := cl_smoothing k;
           cl_lightDecay := cl_lightDecay k |}
  | _ => c
  end.

(** One turn of [for (auto k : cl)]. *)
Definition visit_cone (i : nat) (localToWorld : mat4) (position : vec4)
    (st : ForwardRenderer * list Component) (j : nat) : ForwardRenderer * list Component :=
  (set_coneLights (coneLights st.1 ++ [(i, j)]) st.1,
   alter (ConeLight_write localToWorld position) j st.2).

(** One turn of [for (auto entity : world->getEntities())], for the
    entity met in place [i]: the entity as the turn leaves it, the
    camera found so far and the renderer. *)
Definition visit_entity (i : nat) (entity : Entity) (st : option ptr * ForwardRenderer)
    : Entity * (option ptr * ForwardRenderer) :=
  let camera :=
    match st.1 with
    | None => (λ c, (i, c.1)) <$> getComponent as_Camera entity
    | Some c => Some c
    end in
  let this := st.2 in
  let localToWorld' := getLocalToWorldMatrix entity in
  let position := mat4_mul_vec4 localToWorld' (Vec4 f0 f0 f0 f1) in
  let this :=
    match getComponent as_MeshRenderer entity with
    | Some (_, meshRenderer) =>
        let command :=
          {| localToWorld := localToWorld';
             center := vec3_of_vec4 position;
             mesh := mr_mesh meshRenderer;
             material := mr_material meshRenderer |} in
        if transparent (material command)
        then set_transparentCommands (transparentCommands this ++ [command]) this
        else set_opaqueCommands (opaqueCommands this ++ [command]) this
    | None => this
    end in
  let this :=
    match getComponent as_DirectionalLight entity with
    | Some (j, _) => set_directionalLights (directionalLights this ++ [(i, j)]) this
    | None => this
    end in
  let '(this, cs) :=
    match getComponent as_SpotLight entity with
    | Some (j, _) =>
        (set_spotLights (spotLights this ++ [(i, j)]) this,
         alter (SpotLight_write position) j (components entity))
    | None => (this, components entity)
    end in
  let cl := getAllComponents_from as_ConeLight 0 cs in
  let '(this, cs) := foldl (visit_cone i localToWorld' position) (this, cs) cl.*1 in
  ({| getLocalToWorldMatrix := localToWorld'; components := cs |}, (camera, this)).

Fixpoint traverse (i : nat) (entities : list Entity) (st : option ptr * ForwardRenderer)
    : World * (option ptr * ForwardRenderer) :=
  match entities with
  | [] => ([], st)
  | entity :: rest =>
      let '(entity', st') := visit_entity i entity st in
      let '(rest', st'') := traverse (S i) rest st' in
      (entity' :: rest', st'')
  end.

(** The five [clear()] calls that open [render]. *)
Definition clear_lists (this : ForwardRenderer) : ForwardRenderer :=
  set_coneLights [] (set_spotLights [] (set_directionalLights []
    (set_transparentCommands [] (set_opaqueCommands [] this)))).

(** ** [ForwardRenderer::render]: ordering and binding *)

(** The lambda handed to [std::sort]: true when [first] is to be drawn
    before [second]. *)
Definition transparent_before (cameraForward cameraCenter : vec3)
    (first second : RenderCommand) : bool :=
  (dot (vec3_sub (center second) cameraCenter) cameraForward
     <? dot (vec3_sub (center first) cameraCenter) cameraForward)%F.

(** The body of [for (int i = 0; i < lights.size(); i++)] over a list of
    light pointers; the lists are taken to hold fewer than 2^31 pointers,
    beyond which [i++] has no defined meaning. *)
Fixpoint bind_each (bind : nat → ptr → list gl_event) (i : nat) (lights : list ptr)
    : list gl_event :=
  match lights with
  | [] => []
  | p :: rest => bind i p ++ bind_each bind (S i) rest
  end.

Definition bind_DirectionalLight (sh : ShaderProgram) (world : World) (i : nat) (p : ptr)
    : list gl_event :=
  let header := "directionalLights[" +:+ pretty i +:+ "]." in
  match deref world p with
  | Some (DirectionalLightC l) =>
      [ShaderProgram_set sh (header +:+ "direction") (dl_direction l);
       ShaderProgram_set sh (header +:+ "intensity") (dl_intensity l);
       ShaderProgram_set sh (header +:+ "color") (dl_color l)]
  | _ => []
  end.

Definition bind_SpotLight (sh : ShaderProgram) (world : World) (i : nat) (p : ptr)
    : list gl_event :=
  let header := "spotLights[" +:+ pretty i +:+ "]." in
  match deref world p with
  | Some (SpotLightC l) =>
      [ShaderProgram_set sh (header +:+ "position") (UVec3 (sl_worldPosition l));
       ShaderProgram_set sh (header +:+ "intensity") (sl_intensity l);
       ShaderProgram_set sh (header +:+ "color") (sl_color l);
       ShaderProgram_set sh (header +:+ "decay") (sl_lightDecay l)]
  | _ => []
  end.

Definition bind_ConeLight (sh : ShaderProgram) (world : World) (i : nat) (p : ptr)
    : list gl_event :=
  let header := "coneLights[" +:+ pretty i +:+ "]." in
  match deref world p with
  | Some (ConeLightC l) =>
      [ShaderProgram_set sh (header +:+ "position") (UVec3 (cl_worldPosition l));
       ShaderProgram_set sh (header +:+ "intensity") (cl_intensity l);
       ShaderProgram_set sh (header +:+ "color") (cl_color l);
       ShaderProgram_set sh (header +:+ "direction") (UVec3 (cl_worldDirection l));
       ShaderProgram_set sh (header +:+ "range") (cl_range l);
       ShaderProgram_set sh (header +:+ "smoothing") (cl_smoothing l);
       ShaderProgram_set sh (header +:+ "decay") (cl_lightDecay l)]
  | _ => []
  end.

(** The three light loops with their count uniforms ("set up lights"). *)
Definition bind_lights (this : ForwardRenderer) (world : World) (sh : ShaderProgram)
    : list gl_event :=
  [ShaderProgram_set sh "directionalLightCount"
     (UInt (GLint_cast (Z.of_nat (length (directionalLights this)))))]
  ++ bind_each (bind_DirectionalLight sh world) 0 (directionalLights this)
  ++ [ShaderProgram_set sh "spotLightsCount"
        (UInt (GLint_cast (Z.of_nat (length (spotLights this)))))]
  ++ bind_each (bind_SpotLight sh world) 0 (spotLights this)
  ++ [ShaderProgram_set sh "coneLightsCount"
        (UInt (GLint_cast (Z.of_nat (length (coneLights this)))))]
  ++ bind_each (bind_ConeLight sh world) 0 (coneLights this).

(** The body of [for (auto k : opaqueCommands)]. *)
Definition draw_opaque (this : ForwardRenderer) (world : World) (VP : mat4)
    (cameraCenter : vec3) (k : RenderCommand) : list gl_event :=
  let sh := shader (material k) in
  [Material_setup (material k)]
  ++ (if is_DefaultMaterial (material k)
      then [ShaderProgram_set sh "transform" (UMat4 (localToWorld k));
            ShaderProgram_set sh "Camera" (UMat4 VP);
            ShaderProgram_set sh "cameraPosition" (UVec3 cameraCenter);
            ShaderProgram_set sh "areaLight" (UVec3 (areaLight this))]
           ++ bind_lights this world sh
      else [ShaderProgram_set sh "transform" (UMat4 (mat4_mul VP (localToWorld k)))])
  ++ [Mesh_draw (mesh k)].

(** The body of [for (auto k : transparentCommands)]. *)
Definition draw_transparent (this : ForwardRenderer) (world : World) (VP : mat4)
    (cameraCenter : vec3) (k : RenderCommand) : list gl_event :=
  let sh := shader (material k) in
  [Material_setup (material k)]
  ++ (if is_DefaultMaterial (material k)
      then [ShaderProgram_set sh "transform" (UMat4 (localToWorld k));
            ShaderProgram_set sh "Camera" (UMat4 VP);
            ShaderProgram_set sh "areaLight" (UVec3 (areaLight this));
            ShaderProgram_set sh "cameraPosition" (UVec3 cameraCenter)]
           ++ bind_lights this world sh
      else [ShaderProgram_set sh "transform" (UMat4 (mat4_mul VP (localToWorld k)))])
  ++ [Mesh_draw (mesh k)].

(** [glm::mat4(1,0,0,0, 0,1,0,0, 0,0,0,0, 0,0,1,1)]: the sixteen numbers
    fill the columns one after the other. *)
Definition alwaysBehindTransform : mat4 :=
  Mat4 (Vec4 f1 f0 f0 f0) (Vec4 f0 f1 f0 f0) (Vec4 f0 f0 f0 f0) (Vec4 f0 f0 f1 f1).

(** The value bound to the sky shader's "Camera". *)
Definition sky_Camera (VP : mat4) : mat4 := mat4_mul alwaysBehindTransform VP.

(** The body of [if (this->skyMaterial)]; [skySphere] is set whenever
    [skyMaterial] is. *)
Definition draw_sky (this : ForwardRenderer) (camera : CameraComponent) (VP : mat4)
    (cameraCenter : vec3) (skyMaterial' : Material) : list gl_event :=
  let sh := shader skyMaterial' in
  let M := translate mat4_identity cameraCenter in
  let size := (orthoHeight camera * (f1 + f1))%F in
  let skyboxScaleMatrix := scale mat4_identity (Vec3 size size size) in
  [Material_setup skyMaterial';
   ShaderProgram_set sh "areaLight" (UVec3 (areaLight this));
   ShaderProgram_set sh "transform" (UMat4 (mat4_mul M skyboxScaleMatrix));
   ShaderProgram_set sh "Camera" (UMat4 (sky_Camera VP))]
  ++ match skySphere this with Some sphere => [Mesh_draw sphere] | None => [] end.

(** Camera forward and centre from the transform of the camera's owner. *)
Definition camera_forward (camTransform : mat4) : vec3 :=
  let cameraForward_ := mat4_mul_vec4 camTransform (Vec4 f0 f0 (- f1)%F f0) in
  Vec3 (v4x cameraForward_) (v4y cameraForward_) (v4z cameraForward_).
Definition camera_center (camTransform : mat4) : vec3 :=
  let cameraCenter_ := mat4_mul_vec4 camTransform (Vec4 f0 f0 f0 f1) in
  Vec3 (v4x cameraCenter_) (v4y cameraCenter_) (v4z cameraCenter_).

(** Everything [render] asks of the graphics side once the camera is
    known and the transparent commands are sorted. *)
Definition frame_events (this : ForwardRenderer) (world : World)
    (camera : CameraComponent) (cameraCenter : vec3) : list gl_event :=
  let VP := mat4_mul (getProjectionMatrix camera (windowSize this)) (getViewMatrix camera) in
  [glViewport 0 0 (windowSize this).1 (windowSize this).2;
   glClearColor f0 f0 f0 f0;
   glClearDepth f1;
   glColorMask true true true true;
   glDepthMask true]
  ++ match postprocessMaterial this with
     | Some _ => [glBindFramebuffer GL_FRAMEBUFFER (postprocessFrameBuffer this)]
     | None => []
     end
  ++ [glClear [GL_COLOR_BUFFER_BIT; GL_DEPTH_BUFFER_BIT]]
  ++ flat_map (draw_opaque this world VP cameraCenter) (opaqueCommands this)
  ++ match skyMaterial this with
     | Some skyMaterial' => draw_sky this camera VP cameraCenter skyMaterial'
     | None => []
     end
  ++ flat_map (draw_transparent this world VP cameraCenter) (transparentCommands this)
  ++ match postprocessMaterial this with
     | Some postprocessMaterial' =>
         [glBindFramebuffer GL_FRAMEBUFFER 0;
          Material_setup postprocessMaterial';
          glBindVertexArray (postProcessVertexArray this);
          glDrawArrays GL_TRIANGLES 0 3]
     | None => []
     end.

(** [render]: the renderer, the scene and the graphics side after the
    frame.  The innermost default branch stands for a camera pointer
    that does not point to a camera, which traversal never returns. *)
Definition render (this : ForwardRenderer) (world : World) (gl : GL)
    : ForwardRenderer * World * GL :=
  let '(world, (camera, this)) := traverse 0 world (None, clear_lists this) in
  match camera with
  | None => (this, world, gl)
  | Some cam =>
      match world !! cam.1, deref world cam with
      | Some owner, Some (CameraC camera) =>
          let camTransform := getLocalToWorldMatrix owner in
          let cameraForward := camera_forward camTransform in
          let cameraCenter := camera_center camTransform in
          let this :=
            set_transparentCommands
              (std_sort (transparent_before cameraForward cameraCenter)
                        (transparentCommands this))
              this in
          (this, world,
           {| next_name := next_name gl;
              log := log gl ++ frame_events this world camera cameraCenter |})
      | _, _ => (this, world, gl)
      end
  end.

End Model.

Abbreviation World := (list Entity).

(** ** Vocabulary of the properties

    What a frame collects and what ends up in the log, said without the
    loop: these are the right-hand sides of the theorems below. *)

Section Observations.
Context {F : Type} {SF : Scalar F}.

(** The first camera in enumeration order, as a pointer. *)
Fixpoint first_camera_from (i : nat) (entities : list (@Entity F)) : option ptr :=
  match entities with
  | [] => None
  | e :: rest =>
      match getComponent as_Camera e with
      | Some (j, _) => Some (i, j)
      | None => first_camera_from (S i) rest
      end
  end.
Definition first_camera (world : list (@Entity F)) : option ptr := first_camera_from 0 world.

(** No entity carries a camera. *)
Definition no_camera (world : list (@Entity F)) : Prop :=
  ∀ e c, e ∈ world → c ∈ components e → as_Camera c = None.

(** The origin of an entity in the world, and the translation column of
    a transform. *)
Definition world_origin (e : @Entity F) : vec4 :=
  mat4_mul_vec4 (getLocalToWorldMatrix e) (Vec4 f0 f0 f0 f1).
Definition translation_of (m : @mat4 F) : vec3 := vec3_of_vec4 (col3 m).

(** The draw command of an entity that has a mesh renderer. *)
Definition command_of (e : @Entity F) : option RenderCommand :=
  match getComponent as_MeshRenderer e with
  | Some (_, meshRenderer) =>
      Some {| localToWorld := getLocalToWorldMatrix e;
              center := vec3_of_vec4 (world_origin e);
              mesh := mr_mesh meshRenderer;
              material := mr_material meshRenderer |}
  | None => None
  end.

(** The commands of a scene in collection order, and its two buckets. *)
Definition collected_commands (world : list (@Entity F)) : list RenderCommand :=
  omap command_of world.
Definition is_transparent (k : @RenderCommand F) : bool := transparent (material k).
Definition collected_opaque (world : list (@Entity F)) : list RenderCommand :=
  List.filter (λ k, negb (is_transparent k)) (collected_commands world).
Definition collected_transparent (world : list (@Entity F)) : list RenderCommand :=
  List.filter is_transparent (collected_commands world).

(** What one entity adds to each bucket, and the camera it offers. *)
Definition opaque_of (e : @Entity F) : list RenderCommand :=
  List.filter (λ k, negb (is_transparent k)) (option_list (command_of e)).
Definition transparent_of (e : @Entity F) : list RenderCommand :=
  List.filter is_transparent (option_list (command_of e)).
Definition camera_of (i : nat) (e : @Entity F) : option ptr :=
  (λ c, (i, c.1)) <$> getComponent as_Camera e.

(** What one entity, met in place [i], adds to each light list. *)
Definition directional_of (i : nat) (e : @Entity F) : list ptr :=
  match getComponent as_DirectionalLight e with Some (j, _) => [(i, j)] | None => [] end.
Definition spot_of (i : nat) (e : @Entity F) : list ptr :=
  match getComponent as_SpotLight e with Some (j, _) => [(i, j)] | None => [] end.
Definition cone_of (i : nat) (e : @Entity F) : list ptr :=
  (λ x, (i, x.1)) <$> getAllComponents as_ConeLight e.

(** The contributions of the entities, in enumeration order from place [i]. *)
Fixpoint collect {X} (f : nat → @Entity F → list X) (i : nat) (entities : list Entity)
    : list X :=
  match entities with
  | [] => []
  | e :: rest => f i e ++ collect f (S i) rest
  end.

(** An entity as a visit leaves it: the first spot light and every
    cone light have their caches written, nothing else is touched. *)
Definition visited (e : @Entity F) : Entity :=
  {| getLocalToWorldMatrix := getLocalToWorldMatrix e;
     components :=
       ConeLight_write (getLocalToWorldMatrix e) (world_origin e) <$>
         match getComponent as_SpotLight e with
         | Some (j, _) => alter (SpotLight_write (world_origin e)) j (components e)
         | None => components e
         end |}.

(** The component in place [j] of [e] as a visit leaves it. *)
Definition written (e : @Entity F) (j : nat) (c : Component) : Component :=
  ConeLight_write (getLocalToWorldMatrix e) (world_origin e)
    (if bool_decide (fst <$> getComponent as_SpotLight e = Some j)
     then SpotLight_write (world_origin e) c else c).

(** The renderer with the five lists replaced. *)
Definition with_lists (this : @ForwardRenderer F)
    (opaque transparent' : list RenderCommand) (directional spot cone : list ptr)
    : ForwardRenderer :=
  {| windowSize := windowSize this;
     areaLight := areaLight this;
     skySphere := skySphere this;
     skyMaterial := skyMaterial this;
     postprocessFrameBuffer := postprocessFrameBuffer this;
     postProcessVertexArray := postProcessVertexArray this;
     colorTarget := colorTarget this;
     depthTarget := depthTarget this;
     postprocessMaterial := postprocessMaterial this;
     opaqueCommands := opaque;
     transparentCommands := transparent';
     directionalLights := directional;
     spotLights := spot;
     coneLights := cone |}.

(** The renderer with something appended to each of the five lists. *)
Definition appended (this : @ForwardRenderer F)
    (opaque transparent' : list RenderCommand) (directional spot cone : list ptr)
    : ForwardRenderer :=
  with_lists this (opaqueCommands this ++ opaque)
    (transparentCommands this ++ transparent')
    (directionalLights this ++ directional) (spotLights this ++ spot)
    (coneLights this ++ cone).

(** The renderer once traversal of [world] is over. *)
Definition collected (this : @ForwardRenderer F) (world : World) : ForwardRenderer :=
  with_lists this (collected_opaque world) (collected_transparent world)
    (collect directional_of 0 world) (collect spot_of 0 world) (collect cone_of 0 world).

(** The renderer at the end of a frame whose camera belongs to [owner]. *)
Definition sorted_frame (this : @ForwardRenderer F) (world : World) (owner : Entity)
    : ForwardRenderer :=
  with_lists this (collected_opaque world)
    (std_sort (transparent_before (camera_forward (getLocalToWorldMatrix owner))
                                  (camera_center (getLocalToWorldMatrix owner)))
              (collected_transparent world))
    (collect directional_of 0 world) (collect spot_of 0 world) (collect cone_of 0 world).

(** The members of the renderer that are not per-frame lists. *)
Definition resources (this : @ForwardRenderer F) : ForwardRenderer :=
  with_lists this [] [] [] [] [].

(** [c'] is [c] up to the caches that traversal writes: the world
    position of a spot light, the world position and direction of a
    cone light. *)
Definition same_but_caches (c c' : @Component F) : Prop :=
  match c, c' with
  | SpotLightC l, SpotLightC l' =>
      sl_intensity l' = sl_intensity l ∧ sl_color l' = sl_color l
      ∧ sl_lightDecay l' = sl_lightDecay l
  | ConeLightC l, ConeLightC l' =>
      cl_direction l' = cl_direction l ∧ cl_intensity l' = cl_intensity l
      ∧ cl_color l' = cl_color l ∧ cl_range l' = cl_range l
      ∧ cl_smoothing l' = cl_smoothing l ∧ cl_lightDecay l' = cl_lightDecay l
  | _, _ => c' = c
  end.

(** Draw calls and clears among the events of a log. *)
Definition is_draw (e : @gl_event F) : bool :=
  match e with Mesh_draw _ | glDrawArrays _ _ _ => true | _ => false end.
Definition is_clear (e : @gl_event F) : bool :=
  match e with glClear _ => true | _ => false end.
Definition draw_calls (events : list (@gl_event F)) : list gl_event :=
  List.filter is_draw events.

(** The depth of a command along the camera's forward axis, the key of
    the transparency sort. *)
Definition depth_along (cameraForward cameraCenter : @vec3 F) (k : RenderCommand) : F :=
  dot (vec3_sub (center k) cameraCenter) cameraForward.

(** Objects that [initialize] created, read off the log: textures made
    empty with their format and size, framebuffers, and what was attached
    to which framebuffer (the one bound at the time of the call). *)
Definition textures_created (events : list (@gl_event F)) : list (GLenum * ivec2 * Texture2D) :=
  omap (λ e, match e with
             | texture_utils_empty format size t => Some (format, size, t)
             | _ => None
             end) events.
Definition framebuffers_created (events : list (@gl_event F)) : list GLuint :=
  omap (λ e, match e with glGenFramebuffers n => Some n | _ => None end) events.
Fixpoint attachments (bound : GLuint) (events : list (@gl_event F))
    : list (GLuint * GLenum * GLuint) :=
  match events with
  | [] => []
  | glBindFramebuffer GL_FRAMEBUFFER n :: rest => attachments n rest
  | glFramebufferTexture2D GL_FRAMEBUFFER point GL_TEXTURE_2D t _ :: rest =>
      (bound, point, t) :: attachments bound rest
  | _ :: rest => attachments bound rest
  end.

(** What else [initialize] created, by kind and in order of creation. *)
Definition spheres_created (events : list (@gl_event F)) : list Mesh :=
  omap (λ e, match e with mesh_utils_sphere _ n => Some n | _ => None end) events.
Definition images_loaded (events : list (@gl_event F)) : list (string * Texture2D) :=
  omap (λ e, match e with
             | texture_utils_loadImage file _ t => Some (file, t)
             | _ => None
             end) events.
Definition shaders_created (events : list (@gl_event F)) : list ShaderProgram :=
  omap (λ e, match e with new_ShaderProgram n => Some n | _ => None end) events.
Definition samplers_created (events : list (@gl_event F)) : list Sampler :=
  omap (λ e, match e with new_Sampler n => Some n | _ => None end) events.

(** Events that create or wire something for post-processing. *)
Definition is_postprocess_creation (e : @gl_event F) : bool :=
  match e with
  | glGenFramebuffers _ | glGenVertexArrays _ | texture_utils_empty _ _ _
  | glFramebufferTexture2D _ _ _ _ _ | glBindFramebuffer _ _ => true
  | _ => false
  end.

(** [areaLight] is absent from the configuration or reads as a colour. *)
Definition areaLight_readable (config : gmap string (@json F)) : Prop :=
  ∀ j, config !! "areaLight" = Some j → ∃ v, vec3_from_json j = inr v.

(** The calls of the sky branch of [initialize] when [n] names were
    handed out before it, and the material it builds. *)
Definition sky_events (n : nat) (file : string) : list (@gl_event F) :=
  [mesh_utils_sphere (16, 16)%Z (1 + n);
   new_ShaderProgram (2 + n);
   ShaderProgram_attach (2 + n) "assets/shaders/default.vert" GL_VERTEX_SHADER;
   ShaderProgram_attach (2 + n) "assets/shaders/default.frag" GL_FRAGMENT_SHADER;
   ShaderProgram_link (2 + n);
   texture_utils_loadImage file false (3 + n);
   new_Sampler (4 + n);
   Sampler_set (4 + n) GL_TEXTURE_MIN_FILTER GL_LINEAR;
   Sampler_set (4 + n) GL_TEXTURE_MAG_FILTER GL_LINEAR;
   Sampler_set (4 + n) GL_TEXTURE_WRAP_S GL_REPEAT;
   Sampler_set (4 + n) GL_TEXTURE_WRAP_T GL_CLAMP_TO_EDGE].
Definition sky_material (n : nat) : @Material F :=
  {| mat_kind := DefaultMaterial;
     shader := 2 + n;
     texture := Some (3 + n);
     sampler := Some (4 + n);
     pipelineState :=
       {| faceCulling_enabled := Some true; faceCulling_frontFace := Some GL_CW;
          depthMask := Some true; depthTesting_enabled := Some true |};
     tint := Vec4 f1 f1 f1 f1;
     transparent := false;
     isSkybox := true |}.

(** The same for the post-processing branch; [m] is the textured
    material as constructed. *)
Definition postprocess_events (n : nat) (windowSize : ivec2) (file : string)
    : list (@gl_event F) :=
  [glGenFramebuffers (1 + n);
   glBindFramebuffer GL_FRAMEBUFFER (1 + n);
   texture_utils_empty GL_RGBA8 windowSize (2 + n);
   glFramebufferTexture2D GL_FRAMEBUFFER GL_COLOR_ATTACHMENT0 GL_TEXTURE_2D (2 + n) 0;
   texture_utils_empty GL_DEPTH_COMPONENT24 windowSize (3 + n);
   glFramebufferTexture2D GL_FRAMEBUFFER GL_DEPTH_ATTACHMENT GL_TEXTURE_2D (3 + n) 0;
   glBindFramebuffer GL_FRAMEBUFFER 0;
   glGenVertexArrays (4 + n);
   new_Sampler (5 + n);
   Sampler_set (5 + n) GL_TEXTURE_MIN_FILTER GL_LINEAR;
   Sampler_set (5 + n) GL_TEXTURE_MAG_FILTER GL_LINEAR;
   Sampler_set (5 + n) GL_TEXTURE_WRAP_S GL_CLAMP_TO_EDGE;
   Sampler_set (5 + n) GL_TEXTURE_WRAP_T GL_CLAMP_TO_EDGE;
   new_ShaderProgram (6 + n);
   ShaderProgram_attach (6 + n) "assets/shaders/fullscreen.vert" GL_VERTEX_SHADER;
   ShaderProgram_attach (6 + n) file GL_FRAGMENT_SHADER;
   ShaderProgram_link (6 + n)].
Definition postprocess_material (m : @Material F) (n : nat) : @Material F :=
  {| mat_kind := TexturedMaterial;
     shader := 6 + n;
     texture := Some (2 + n);
     sampler := Some (5 + n);
     pipelineState :=
       {| faceCulling_enabled := faceCulling_enabled (pipelineState m);
          faceCulling_frontFace := faceCulling_frontFace (pipelineState m);
          depthMask := Some false;
          depthTesting_enabled := depthTesting_enabled (pipelineState m) |};
     tint := tint m;
     transparent := transparent m;
     isSkybox := isSkybox m |}.

(** What [initialize] leaves behind when only [postprocess] is
    configured: one framebuffer, an RGBA8 and a 24-bit depth texture of
    the window's size attached to it, the material that samples the
    colour texture; no sphere, no image, no other shader or sampler, and
    the sky members as they were. *)
Definition postprocess_only_outcome (constructed : MaterialKind → @Material F)
    (windowSize : ivec2) (config : gmap string (@json F))
    (this : ForwardRenderer) (gl : GL) : Prop :=
  ∃ this' gl' events m color depth,
    initialize constructed windowSize config (this, gl) = ((this', gl'), inr ())
    ∧ log gl' = log gl ++ events
    ∧ framebuffers_created events = [postprocessFrameBuffer this']
    ∧ colorTarget this' = Some color ∧ depthTarget this' = Some depth
    ∧ textures_created events
      = [(GL_RGBA8, windowSize, color); (GL_DEPTH_COMPONENT24, windowSize, depth)]
    ∧ (∀ bound, attachments bound events
         = [(postprocessFrameBuffer this', GL_COLOR_ATTACHMENT0, color);
            (postprocessFrameBuffer this', GL_DEPTH_ATTACHMENT, depth)])
    ∧ postprocessMaterial this' = Some m ∧ texture m = Some color
    ∧ spheres_created events = [] ∧ images_loaded events = []
    ∧ shaders_created events = [shader m]
    ∧ samplers_created events = option_list (sampler m)
    ∧ skySphere this' = skySphere this ∧ skyMaterial this' = skyMaterial this.

(** What it leaves behind when only [sky] is configured, with the path
    [file]: the sphere, the lit material with its shader, the image
    loaded from [file] and a sampler; no framebuffer, no empty texture,
    no attachment, and the post-processing members as they were. *)
Definition sky_only_outcome (constructed : MaterialKind → @Material F)
    (windowSize : ivec2) (config : gmap string (@json F))
    (this : ForwardRenderer) (gl : GL) (file : string) : Prop :=
  ∃ this' gl' events sphere m image,
    initialize constructed windowSize config (this, gl) = ((this', gl'), inr ())
    ∧ log gl' = log gl ++ events
    ∧ skySphere this' = Some sphere ∧ spheres_created events = [sphere]
    ∧ skyMaterial this' = Some m ∧ mat_kind m = DefaultMaterial
    ∧ shaders_created events = [shader m]
    ∧ texture m = Some image ∧ images_loaded events = [(file, image)]
    ∧ samplers_created events = option_list (sampler m)
    ∧ List.filter is_postprocess_creation events = []
    ∧ framebuffers_created events = [] ∧ textures_created events = []
    ∧ postprocessFrameBuffer this' = postprocessFrameBuffer this
    ∧ postProcessVertexArray this' = postProcessVertexArray this
    ∧ colorTarget this' = colorTarget this ∧ depthTarget this' = depthTarget this
    ∧ postprocessMaterial this' = postprocessMaterial this.

(** No element of a sorted range goes before its predecessor. *)
Definition ordered_by {A} (comp : A → A → bool) (l : list A) : Prop :=
  ∀ n a b, l !! n = Some a → l !! S n = Some b → comp b a = false.

(** The four uniforms a lit material is bound to before the lights. *)
Definition is_frame_uniform (name : string) : Prop :=
  name = "transform" ∨ name = "Camera" ∨ name = "cameraPosition" ∨ name = "areaLight".

(** The name [<array>[i].<field>] as the light loops spell it. *)
Definition indexed (array : string) (i : nat) (field : string) : string :=
  (array +:+ "[" +:+ pretty i +:+ "].") +:+ field.

(** What a lit material is bound to, said of the events of one command. *)
Definition lit_binding (this : @ForwardRenderer F) (world : World) (VP : mat4)
    (cameraCenter : vec3) (k : RenderCommand) (events : list gl_event) : Prop :=
  let sh := shader (material k) in
  (∀ v, ShaderProgram_set sh "transform" v ∈ events ↔ v = UMat4 (localToWorld k))
  ∧ (∀ v, ShaderProgram_set sh "Camera" v ∈ events ↔ v = UMat4 VP)
  ∧ (∀ v, ShaderProgram_set sh "cameraPosition" v ∈ events ↔ v = UVec3 cameraCenter)
  ∧ (∀ v, ShaderProgram_set sh "areaLight" v ∈ events ↔ v = UVec3 (areaLight this))
  ∧ ShaderProgram_set sh "directionalLightCount"
      (UInt (GLint_cast (Z.of_nat (length (directionalLights this))))) ∈ events
  ∧ ShaderProgram_set sh "spotLightsCount"
      (UInt (GLint_cast (Z.of_nat (length (spotLights this))))) ∈ events
  ∧ ShaderProgram_set sh "coneLightsCount"
      (UInt (GLint_cast (Z.of_nat (length (coneLights this))))) ∈ events
  ∧ (∀ n p l, directionalLights this !! n = Some p →
       deref world p = Some (DirectionalLightC l) →
       ShaderProgram_set sh (indexed "directionalLights" n "direction") (dl_direction l) ∈ events
       ∧ ShaderProgram_set sh (indexed "directionalLights" n "intensity") (dl_intensity l) ∈ events
       ∧ ShaderProgram_set sh (indexed "directionalLights" n "color") (dl_color l) ∈ events)
  ∧ (∀ n p l, spotLights this !! n = Some p →
       deref world p = Some (SpotLightC l) →
       ShaderProgram_set sh (indexed "spotLights" n "position") (UVec3 (sl_worldPosition l)) ∈ events
       ∧ ShaderProgram_set sh (indexed "spotLights" n "intensity") (sl_intensity l) ∈ events
       ∧ ShaderProgram_set sh (indexed "spotLights" n "color") (sl_color l) ∈ events
       ∧ ShaderProgram_set sh (indexed "spotLights" n "decay") (sl_lightDecay l) ∈ events)
  ∧ (∀ n p l, coneLights this !! n = Some p →
       deref world p = Some (ConeLightC l) →
       ShaderProgram_set sh (indexed "coneLights" n "position") (UVec3 (cl_worldPosition l)) ∈ events
       ∧ ShaderProgram_set sh (indexed "coneLights" n "intensity") (cl_intensity l) ∈ events
       ∧ ShaderProgram_set sh (indexed "coneLights" n "color") (cl_color l) ∈ events
       ∧ ShaderProgram_set sh (indexed "coneLights" n "direction") (UVec3 (cl_worldDirection l)) ∈ events
       ∧ ShaderProgram_set sh (indexed "coneLights" n "range") (cl_range l) ∈ events
       ∧ ShaderProgram_set sh (indexed "coneLights" n "smoothing") (cl_smoothing l) ∈ events
       ∧ ShaderProgram_set sh (indexed "coneLights" n "decay") (cl_lightDecay l) ∈ events).

End Observations.

(** ** [ForwardRenderer::destroy], and more vocabulary *)

Section Teardown.
Context {F : Type} {SF : Scalar F}.

(** What [destroy] asks: the deletions, of objects known by their names
    and of the two materials. *)
Inductive release_event :=
| delete_Mesh (m : Mesh)
| delete_ShaderProgram (sh : ShaderProgram)
| delete_Texture2D (t : Texture2D)
| delete_Sampler (s : Sampler)
| delete_Material (m : @Material F)
| glDeleteFramebuffers (framebuffer : GLuint)
| glDeleteVertexArrays (array : GLuint).

(** [delete p] for a pointer that may be null: on null nothing happens. *)
Definition delete_pointer {A} (release : A → release_event) (p : option A)
    : list release_event :=
  match p with Some a => [release a] | None => [] end.

(** [destroy]: the deletions in the order of the source.  It assigns no
    member: the renderer is afterwards as it was, its pointers dangling. *)
Definition destroy (this : @ForwardRenderer F) : list release_event :=
  match skyMaterial this with
  | Some skyMaterial' =>
      delete_pointer delete_Mesh (skySphere this)
      ++ [delete_ShaderProgram (shader skyMaterial')]
      ++ delete_pointer delete_Texture2D (texture skyMaterial')
      ++ delete_pointer delete_Sampler (sampler skyMaterial')
      ++ [delete_Material skyMaterial']
  | None => []
  end
  ++ match postprocessMaterial this with
     | Some postprocessMaterial' =>
         [glDeleteFramebuffers (postprocessFrameBuffer this);
          glDeleteVertexArrays (postProcessVertexArray this)]
         ++ delete_pointer delete_Texture2D (colorTarget this)
         ++ delete_pointer delete_Texture2D (depthTarget this)
         ++ delete_pointer delete_Sampler (sampler postprocessMaterial')
         ++ [delete_ShaderProgram (shader postprocessMaterial');
             delete_Material postprocessMaterial']
     | None => []
     end.

(** An object by kind and name, to compare what was created with what
    was released. *)
Inductive object :=
| a_mesh (n : nat)
| a_shader (n : nat)
| a_texture (n : nat)
| a_sampler (n : nat)
| a_framebuffer (n : nat)
| a_vertex_array (n : nat).

Definition created (events : list (@gl_event F)) : list object :=
  omap (λ e, match e with
             | mesh_utils_sphere _ n => Some (a_mesh n)
             | new_ShaderProgram n => Some (a_shader n)
             | texture_utils_loadImage _ _ n => Some (a_texture n)
             | texture_utils_empty _ _ n => Some (a_texture n)
             | new_Sampler n => Some (a_sampler n)
             | glGenFramebuffers n => Some (a_framebuffer n)
             | glGenVertexArrays n => Some (a_vertex_array n)
             | _ => None
             end) events.

Definition released (events : list release_event) : list object :=
  omap (λ e, match e with
             | delete_Mesh n => Some (a_mesh n)
             | delete_ShaderProgram n => Some (a_shader n)
             | delete_Texture2D n => Some (a_texture n)
             | delete_Sampler n => Some (a_sampler n)
             | glDeleteFramebuffers n => Some (a_framebuffer n)
             | glDeleteVertexArrays n => Some (a_vertex_array n)
             | delete_Material _ => None
             end) events.

Definition materials_released (events : list release_event) : list (@Material F) :=
  omap (λ e, match e with delete_Material m => Some m | _ => None end) events.

(** The clears and draw calls of a log, each with the framebuffer bound
    when it is issued; [bound] is the one bound at the start. *)
Fixpoint targets (bound : GLuint) (events : list (@gl_event F))
    : list (GLuint * @gl_event F) :=
  match events with
  | [] => []
  | glBindFramebuffer GL_FRAMEBUFFER n :: rest => targets n rest
  | e :: rest =>
      if is_draw e || is_clear e then (bound, e) :: targets bound rest
      else targets bound rest
  end.

(** Events that neither draw, nor clear, nor bind a framebuffer. *)
Definition is_quiet (e : @gl_event F) : bool :=
  match e with
  | Mesh_draw _ | glDrawArrays _ _ _ | glClear _ | glBindFramebuffer _ _ => false
  | _ => true
  end.

(** An entity that carries a mesh renderer. *)
Definition has_MeshRenderer (e : @Entity F) : Prop :=
  is_Some (getComponent as_MeshRenderer e).

(** The commands of both buckets of a renderer. *)
Definition commands (this : @ForwardRenderer F) : list RenderCommand :=
  opaqueCommands this ++ transparentCommands this.

(** A configuration value that is absent or a string. *)
Definition absent_or_string (config : gmap string (@json F)) (key : string) : Prop :=
  config !! key = None ∨ ∃ file, config !! key = Some (JString file).

(** A renderer on which [initialize] has not run: both materials null. *)
Definition uninitialized (this : @ForwardRenderer F) : Prop :=
  skyMaterial this = None ∧ postprocessMaterial this = None.

End Teardown.

(** ** The integers as scalars, and sample inputs *)

#[global] Instance Z_Scalar : Scalar Z :=
  {| f0 := 0%Z; f1 := 1%Z; fadd := Z.add; fsub := Z.sub; fmul := Z.mul;
     fopp := Z.opp; fltb := Z.ltb |}.

Module Sample.
#[local] Open Scope Z_scope.

(** An entity placed at [(x, y, z)], not rotated. *)
Definition placed (x y z : Z) (cs : list Component) : Entity :=
  {| getLocalToWorldMatrix := translate mat4_identity (Vec3 x y z); components := cs |}.

Definition plain (kind : MaterialKind) (sh : ShaderProgram) (see_through : bool)
    : @Material Z :=
  {| mat_kind := kind; shader := sh; texture := None; sampler := None;
     pipelineState := PipelineState_init; tint := Vec4 1 1 1 1;
     transparent := see_through; isSkybox := false |}.

(** A material as its constructor leaves it. *)
Definition as_constructed (kind : MaterialKind) : @Material Z := plain kind 0%nat false.

Definition eye : @CameraComponent Z :=
  {| getViewMatrix := translate mat4_identity (Vec3 0 0 (-10));
     getProjectionMatrix := λ _, mat4_identity;
     orthoHeight := 5 |}.

Definition sun : @DirectionalLight Z :=
  {| dl_direction := UVec3 (Vec3 0 (-1) 0); dl_intensity := UFloat 1;
     dl_color := UVec3 (Vec3 1 1 1) |}.

(** A spot light whose cache is stale. *)
Definition lamp : @SpotLight Z :=
  {| sl_worldPosition := Vec3 9 9 9; sl_intensity := UFloat 1;
     sl_color := UVec3 (Vec3 1 1 1); sl_lightDecay := UFloat 2 |}.

Definition torch (d : vec3) : @ConeLight Z :=
  {| cl_direction := d; cl_worldPosition := Vec3 0 0 0; cl_worldDirection := Vec3 0 0 0;
     cl_intensity := UFloat 1; cl_color := UVec3 (Vec3 1 1 1); cl_range := UFloat 3;
     cl_smoothing := UFloat 1; cl_lightDecay := UFloat 2 |}.

Definition lights : @Entity Z :=
  placed 1 2 3
    [SpotLightC lamp; ConeLightC (torch (Vec3 1 0 0)); OtherC;
     ConeLightC (torch (Vec3 0 1 0)); SpotLightC lamp].

Definition operator : @Entity Z := placed 0 0 10 [OtherC; CameraC eye].

(** Two lit entities and three meshes in front of a camera that looks
    down the negative z axis from [(0, 0, 10)]. *)
Definition scene : list (@Entity Z) :=
  [lights;
   placed 0 0 (-5)
     [MeshRendererC {| mr_mesh := 7%nat; mr_material := plain DefaultMaterial 3%nat true |};
      DirectionalLightC sun; DirectionalLightC sun];
   placed 0 0 (-9)
     [MeshRendererC {| mr_mesh := 8%nat; mr_material := plain OtherMaterial 4%nat true |}];
   placed 0 0 (-2)
     [MeshRendererC {| mr_mesh := 9%nat; mr_material := plain OtherMaterial 4%nat false |}];
   operator].

(** The lights alone: a scene without a camera. *)
Definition dark_scene : list (@Entity Z) := [lights].

(** A renderer before [initialize], and one with both features on. *)
Definition fresh : @ForwardRenderer Z :=
  {| windowSize := (800, 600); areaLight := Vec3 1 1 1;
     skySphere := None; skyMaterial := None;
     postprocessFrameBuffer := 0%nat; postProcessVertexArray := 0%nat;
     colorTarget := None; depthTarget := None; postprocessMaterial := None;
     opaqueCommands := []; transparentCommands := [];
     directionalLights := []; spotLights := []; coneLights := [] |}.

Definition full : @ForwardRenderer Z :=
  {| windowSize := (800, 600); areaLight := Vec3 1 1 1;
     skySphere := Some 1%nat; skyMaterial := Some (sky_material 0);
     postprocessFrameBuffer := 5%nat; postProcessVertexArray := 8%nat;
     colorTarget := Some 6%nat; depthTarget := Some 7%nat;
     postprocessMaterial :=
       Some (postprocess_material (plain TexturedMaterial 0%nat false) 4);
     opaqueCommands := []; transparentCommands := [];
     directionalLights := []; spotLights := []; coneLights := [] |}.

Definition context : @GL Z := {| next_name := 0; log := [] |}.

(** The camera's view-projection matrix, the lit command of [scene], its
    unlit neighbour, and a point in front of the camera. *)
Definition view_projection : @mat4 Z :=
  mat4_mul (getProjectionMatrix eye (800, 600)) (getViewMatrix eye).
Definition lit_command : @RenderCommand Z :=
  {| localToWorld := translate mat4_identity (Vec3 0 0 (-5));
     center := Vec3 0 0 (-5);
     mesh := 7%nat;
     material := plain DefaultMaterial 3%nat true |}.
Definition unlit_command : @RenderCommand Z :=
  {| localToWorld := translate mat4_identity (Vec3 0 0 (-9));
     center := Vec3 0 0 (-9);
     mesh := 8%nat;
     material := plain OtherMaterial 4%nat true |}.
Definition point : @vec4 Z := Vec4 3 (-4) 5 1.

Definition only_postprocess : gmap string (@json Z) :=
  {[ "postprocess" := JString "assets/shaders/postprocess/vignette.frag" ]}.
Definition only_sky : gmap string (@json Z) :=
  {[ "sky" := JString "assets/textures/sky.jpg" ]}.
End Sample.

(** Configurations for [initialize]: both features on, and three with a
    value of the wrong type; a scene of the lights and the camera. *)
Module Configured.
#[local] Open Scope Z_scope.

Definition both : gmap string (@json Z) :=
  {[ "sky" := JString "assets/textures/sky.jpg";
     "postprocess" := JString "assets/shaders/postprocess/vignette.frag" ]}.
Definition sky_not_a_string : gmap string (@json Z) :=
  {[ "sky" := JNumber 3; "postprocess" := JString "assets/shaders/postprocess/vignette.frag" ]}.
Definition postprocess_not_a_string : gmap string (@json Z) :=
  {[ "postprocess" := JBool true ]}.
Definition areaLight_not_a_colour : gmap string (@json Z) :=
  {[ "areaLight" := JArray [JNumber 1; JNumber 2];
     "sky" := JString "assets/textures/sky.jpg" ]}.

Definition lit_stage : list (@Entity Z) := [Sample.lights; Sample.operator].
End Configured.

(** * Properties *)

Section Properties.
Context {F : Type} {SF : Scalar F}.

(** *** Lookups by kind *)

Lemma getComponent_from_Some {T} (cast : @Component F → option T) k cs j t :
  getComponent_from cast k cs = Some (j, t) →
  ∃ j', j = k + j' ∧ (∃ c, cs !! j' = Some c ∧ cast c = Some t)
        ∧ ∀ i c, i < j' → cs !! i = Some c → cast c = None.
Proof.
  revert k. induction cs as [|c cs IH]; intros k; simpl; [done|].
  destruct (cast c) as [t'|] eqn:Hc.
  - intros [= <- <-]. exists 0. split; [lia|]. split; [by exists c|]. intros; lia.
  - intros (j' & -> & (c' & Hl & Hc') & Hfirst)%IH. exists (S j').
    split; [lia|]. split; [by exists c'|].
    intros [|i] c0 Hi; simpl; [by intros [= <-]|]. apply Hfirst. lia.
Qed.

Lemma getComponent_from_None {T} (cast : @Component F → option T) k cs :
  getComponent_from cast k cs = None ↔ ∀ c, c ∈ cs → cast c = None.
Proof.
  revert k. induction cs as [|c cs IH]; intros k; simpl.
  - split; [|done]. intros _ c Hc. by apply elem_of_nil in Hc.
  - destruct (cast c) as [t'|] eqn:Hc.
    + split; [done|]. intros H. specialize (H c (list_elem_of_here _ _)). congruence.
    + rewrite IH. split.
      * intros H c' [->|?]%elem_of_cons; auto.
      * intros H c' ?. apply H. by right.
Qed.

Lemma getAllComponents_from_elem {T} (cast : @Component F → option T) k cs j t :
  (j, t) ∈ getAllComponents_from cast k cs ↔
  ∃ j' c, j = k + j' ∧ cs !! j' = Some c ∧ cast c = Some t.
Proof.
  revert k. induction cs as [|c cs IH]; intros k; simpl.
  - split; [by intros ?%elem_of_nil|]. by intros (? & ? & ? & ? & ?).
  - assert (Hrest : (j, t) ∈ getAllComponents_from cast (S k) cs ↔
                    ∃ j' c0, j = k + S j' ∧ cs !! j' = Some c0 ∧ cast c0 = Some t).
    { rewrite IH. split; intros (j' & c0 & -> & ? & ?); exists j', c0; (split; [lia|done]). }
    destruct (cast c) as [t'|] eqn:Hc.
    + rewrite elem_of_cons, Hrest. split.
      * intros [[= -> ->]|(j' & c0 & -> & ? & ?)].
        -- exists 0, c. split; [lia|done].
        -- by exists (S j'), c0.
      * intros ([|j'] & c0 & -> & Hl & Hc0); simpl in Hl.
        -- left. simplify_eq. f_equal. lia.
        -- right. by exists j', c0.
    + rewrite Hrest. split.
      * intros (j' & c0 & -> & ? & ?). by exists (S j'), c0.
      * intros ([|j'] & c0 & -> & Hl & Hc0); simpl in Hl; [congruence|].
        by exists j', c0.
Qed.

(** A write through a pointer that keeps the kind of the component
    keeps the places found by a lookup. *)
Lemma getAllComponents_from_alter {T} (cast : @Component F → option T) f k j cs :
  (∀ c, (cast (f c) : option T) = None ↔ cast c = None) →
  (getAllComponents_from cast k (alter f j cs)).*1 = (getAllComponents_from cast k cs).*1.
Proof.
  intros Hf. revert k j. induction cs as [|c cs IH]; intros k [|j]; simpl; try done.
  - specialize (Hf c).
    destruct (cast (f c)) eqn:H1, (cast c) eqn:H2; simpl; try done.
    + destruct Hf as [_ Hf]. by specialize (Hf eq_refl).
    + destruct Hf as [Hf _]. by specialize (Hf eq_refl).
  - destruct (cast c); simpl; [f_equal|]; apply IH.
Qed.

(** *** Writes through the light pointers *)

Lemma ConeLight_write_idemp (m : @mat4 F) p c :
  ConeLight_write m p (ConeLight_write m p c) = ConeLight_write m p c.
Proof. by destruct c. Qed.

Lemma alter_fold_lookup (f : @Component F → Component)
    (cs : list Component) (js : list nat) (j : nat) :
  (∀ c, f (f c) = f c) →
  foldl (λ cs j, alter f j cs) cs js !! j
  = if decide (j ∈ js) then f <$> cs !! j else cs !! j.
Proof.
  intros Hf. revert cs. induction js as [|j0 js IH]; intros cs; cbn [foldl].
  - by rewrite decide_False by apply not_elem_of_nil.
  - rewrite IH. destruct (decide (j = j0)) as [->|Hne].
    + rewrite (decide_True (P := j0 ∈ j0 :: js)) by left.
      rewrite list_lookup_alter_eq.
      case_decide; [|done]. destruct (cs !! j0); simpl; by rewrite ?Hf.
    + rewrite list_lookup_alter_ne by done.
      destruct (decide (j ∈ js)).
      * by rewrite decide_True by by right.
      * rewrite decide_False; [done|]. by intros [?|?]%elem_of_cons.
Qed.

Lemma cone_writes (m : @mat4 F) p (cs : list Component) :
  foldl (λ cs j, alter (ConeLight_write m p) j cs) cs
        (getAllComponents_from as_ConeLight 0 cs).*1
  = ConeLight_write m p <$> cs.
Proof.
  apply list_eq; intros j.
  rewrite alter_fold_lookup by apply ConeLight_write_idemp.
  rewrite list_lookup_fmap. case_decide as Hj; [done|].
  destruct (cs !! j) as [c|] eqn:Hc; [simpl|done].
  destruct c; try done. exfalso; apply Hj.
  apply list_elem_of_fmap. exists (j, l). split; [done|].
  apply getAllComponents_from_elem. by exists j, (ConeLightC l).
Qed.

(** *** The members of the renderer under the setters *)

Lemma appended_nil (this : @ForwardRenderer F) : appended this [] [] [] [] [] = this.
Proof. destruct this. unfold appended, with_lists; simpl. by rewrite !app_nil_r. Qed.

Lemma appended_appended (this : @ForwardRenderer F) o t d s c o' t' d' s' c' :
  appended (appended this o t d s c) o' t' d' s' c'
  = appended this (o ++ o') (t ++ t') (d ++ d') (s ++ s') (c ++ c').
Proof. unfold appended, with_lists; simpl. by rewrite !app_assoc. Qed.

Lemma visit_cones i (m : @mat4 F) p this (cs : list Component) (js : list nat) :
  foldl (visit_cone i m p) (this, cs) js
  = (appended this [] [] [] [] ((λ j, (i, j)) <$> js),
     foldl (λ cs j, alter (ConeLight_write m p) j cs) cs js).
Proof.
  revert this cs. induction js as [|j js IH]; intros this cs; cbn [foldl].
  - by rewrite appended_nil.
  - assert (visit_cone i m p (this, cs) j
            = (set_coneLights (coneLights this ++ [(i, j)]) this,
               alter (ConeLight_write m p) j cs)) as -> by done.
    rewrite IH. f_equal. destruct this. unfold appended, with_lists; simpl.
    by rewrite !app_nil_r, <- app_assoc.
Qed.

Lemma visit_entity_spec i (e : @Entity F) cam this :
  visit_entity i e (cam, this)
  = (visited e,
     (match cam with Some c => Some c | None => camera_of i e end,
      appended this (opaque_of e) (transparent_of e)
        (directional_of i e) (spot_of i e) (cone_of i e))).
Proof.
  unfold visit_entity, visited, opaque_of, transparent_of, command_of,
    directional_of, spot_of, cone_of, camera_of, getAllComponents, world_origin.
  cbn [fst snd].
  set (m := getLocalToWorldMatrix e).
  set (p := mat4_mul_vec4 m (Vec4 f0 f0 f0 f1)).
  assert (Hcones : ∀ this cs,
    (getAllComponents_from as_ConeLight 0 cs).*1
      = (getAllComponents_from as_ConeLight 0 (components e)).*1 →
    (let '(this0, cs0) := foldl (visit_cone i m p) (this, cs)
                            (getAllComponents_from as_ConeLight 0 cs).*1 in
     ({| getLocalToWorldMatrix := m; components := cs0 |},
      (match cam with Some c => Some c | None => (λ c, (i, c.1)) <$> getComponent as_Camera e end, this0)))
    = ({| getLocalToWorldMatrix := m; components := ConeLight_write m p <$> cs |},
       (match cam with Some c => Some c | None => (λ c, (i, c.1)) <$> getComponent as_Camera e end,
        appended this [] [] [] []
          ((λ x, (i, x.1)) <$> getAllComponents_from as_ConeLight 0 (components e))))).
  { intros this0 cs Hcs. rewrite visit_cones, cone_writes, Hcs.
    by rewrite <- list_fmap_compose. }
  destruct (getComponent as_MeshRenderer e) as [[? mr]|],
           (getComponent as_DirectionalLight e) as [[jd ?]|],
           (getComponent as_SpotLight e) as [[js ?]|]; cbn [material is_transparent];
    try destruct (transparent (mr_material mr)) eqn:Htr;
    rewrite Hcones; try done;
    try (apply getAllComponents_from_alter; by intros []);
    destruct this; unfold appended, with_lists, is_transparent; simpl;
    rewrite ?Htr; simpl; by rewrite ?app_nil_r.
Qed.

Lemma visited_lookup (e : @Entity F) j :
  components (visited e) !! j = written e j <$> components e !! j.
Proof.
  unfold visited, written; cbn [components]. rewrite list_lookup_fmap.
  destruct (getComponent as_SpotLight e) as [[j0 ?]|]; cbn [fmap option_fmap option_map fst].
  - rewrite list_lookup_alter. case_decide as Hj.
    + subst. rewrite bool_decide_true by done. by destruct (components e !! j).
    + rewrite bool_decide_false by congruence. by destruct (components e !! j).
  - rewrite bool_decide_false by done. by destruct (components e !! j).
Qed.

Lemma visited_length (e : @Entity F) : length (components (visited e)) = length (components e).
Proof.
  unfold visited; cbn [components]. rewrite length_fmap.
  destruct (getComponent as_SpotLight e) as [[? ?]|]; by rewrite ?length_alter.
Qed.

(** *** Traversal in closed form *)

Lemma collect_commands (P : @RenderCommand F → bool) i es :
  collect (λ _ e, List.filter P (option_list (command_of e))) i es
  = List.filter P (omap command_of es).
Proof.
  revert i. induction es as [|e es IH]; intros i; [done|].
  cbn [collect]. rewrite IH. cbn [omap list_omap].
  destruct (command_of e); simpl; [|done]. by destruct (P r).
Qed.

Lemma traverse_spec i (es : list (@Entity F)) cam this :
  traverse i es (cam, this)
  = (visited <$> es,
     (match cam with Some c => Some c | None => first_camera_from i es end,
      appended this
        (collect (λ _, opaque_of) i es) (collect (λ _, transparent_of) i es)
        (collect directional_of i es) (collect spot_of i es) (collect cone_of i es))).
Proof.
  revert i cam this. induction es as [|e es IH]; intros i cam this.
  - cbn. rewrite appended_nil. by destruct cam.
  - cbn [traverse]. rewrite visit_entity_spec, IH. cbn [fmap list_fmap collect].
    rewrite appended_appended. do 2 f_equal.
    destruct cam; [done|]. unfold camera_of. cbn [first_camera_from].
    by destruct (getComponent as_Camera e) as [[? ?]|].
Qed.

Lemma traverse_world (this : @ForwardRenderer F) (world : World) :
  traverse 0 world (None, clear_lists this)
  = (visited <$> world, (first_camera world, collected this world)).
Proof.
  rewrite traverse_spec. unfold opaque_of, transparent_of.
  rewrite !collect_commands. by destruct this.
Qed.

Lemma first_camera_from_Some k (es : list (@Entity F)) i j :
  first_camera_from k es = Some (i, j) →
  ∃ i' owner camera, i = k + i' ∧ es !! i' = Some owner
    ∧ components owner !! j = Some (CameraC camera).
Proof.
  revert k. induction es as [|e es IH]; intros k; cbn [first_camera_from]; [done|].
  destruct (getComponent as_Camera e) as [[j' c]|] eqn:He.
  - intros [= <- <-]. apply getComponent_from_Some in He as (j0 & -> & (c0 & Hc0 & Hcast) & _).
    destruct c0; try done. simpl in Hcast. simplify_eq.
    exists 0, e, c. split; [lia|]. done.
  - intros (i' & owner & camera & -> & ? & ?)%IH.
    exists (S i'), owner, camera. split; [lia|done].
Qed.

Lemma first_camera_Some (world : list (@Entity F)) i j :
  first_camera world = Some (i, j) →
  ∃ owner camera, world !! i = Some owner ∧ components owner !! j = Some (CameraC camera).
Proof.
  intros (i' & owner & camera & -> & ? & ?)%first_camera_from_Some. by exists owner, camera.
Qed.

Lemma first_camera_from_None k (es : list (@Entity F)) :
  first_camera_from k es = None ↔ no_camera es.
Proof.
  unfold no_camera. revert k. induction es as [|e es IH]; intros k; cbn [first_camera_from].
  - split; [|done]. by intros _ ? ? ?%elem_of_nil.
  - destruct (getComponent as_Camera e) as [[j' c]|] eqn:He.
    + split; [done|]. intros H. exfalso.
      apply getComponent_from_Some in He as (j0 & _ & (c0 & Hc0 & Hcast) & _).
      rewrite (H e c0) in Hcast; [done|by left|]. by eapply list_elem_of_lookup_2.
    + rewrite IH. split.
      * intros H e' c [->|?]%elem_of_cons ?; [|by eapply H].
        by eapply getComponent_from_None.
      * intros H e' c ? ?. apply (H e'); [by right|done].
Qed.

Lemma render_without_camera (this : @ForwardRenderer F) (world : World) gl :
  first_camera world = None →
  render this world gl = (collected this world, visited <$> world, gl).
Proof. intros Hcam. unfold render. by rewrite traverse_world, Hcam. Qed.

Lemma render_with_camera (this : @ForwardRenderer F) (world : World) gl i j owner camera :
  first_camera world = Some (i, j) →
  world !! i = Some owner →
  components owner !! j = Some (CameraC camera) →
  render this world gl
  = (sorted_frame this world owner, visited <$> world,
     {| next_name := next_name gl;
        log := log gl ++ frame_events (sorted_frame this world owner) (visited <$> world)
                           camera (camera_center (getLocalToWorldMatrix owner)) |}).
Proof.
  intros Hcam Hi Hj. unfold render. rewrite traverse_world, Hcam.
  unfold deref. cbn [fst snd]. rewrite list_lookup_fmap, Hi.
  cbn [fmap option_fmap option_map mbind option_bind].
  rewrite visited_lookup, Hj. cbn [fmap option_fmap option_map].
  assert (written owner j (CameraC camera) = CameraC camera) as ->.
  { unfold written. by case_bool_decide. }
  by destruct this.
Qed.

Lemma render_scene (this : @ForwardRenderer F) (world : World) gl :
  (render this world gl).1.2 = visited <$> world.
Proof.
  destruct (first_camera world) as [[i j]|] eqn:Hcam.
  - destruct (first_camera_Some _ _ _ Hcam) as (owner & camera & Hi & Hj).
    by rewrite (render_with_camera _ _ _ _ _ _ _ Hcam Hi Hj).
  - by rewrite render_without_camera.
Qed.

Lemma render_lights (this : @ForwardRenderer F) (world : World) gl :
  directionalLights (render this world gl).1.1 = collect directional_of 0 world
  ∧ spotLights (render this world gl).1.1 = collect spot_of 0 world
  ∧ coneLights (render this world gl).1.1 = collect cone_of 0 world.
Proof.
  destruct (first_camera world) as [[i j]|] eqn:Hcam.
  - destruct (first_camera_Some _ _ _ Hcam) as (owner & camera & Hi & Hj).
    by rewrite (render_with_camera _ _ _ _ _ _ _ Hcam Hi Hj).
  - by rewrite render_without_camera.
Qed.

Lemma elem_of_collect {X} (f : nat → @Entity F → list X) k es x :
  x ∈ collect f k es ↔ ∃ i e, es !! i = Some e ∧ x ∈ f (k + i) e.
Proof.
  revert k. induction es as [|e0 es IH]; intros k; cbn [collect].
  - split; [by intros ?%elem_of_nil|]. by intros (? & ? & ? & _).
  - rewrite elem_of_app, IH. split.
    + intros [?|(i & e & ? & Hx)].
      * exists 0, e0. by rewrite Nat.add_0_r.
      * exists (S i), e. split; [done|]. by rewrite Nat.add_succ_r.
    + intros ([|i] & e & Hl & Hx); simpl in Hl.
      * left. simplify_eq. by rewrite Nat.add_0_r in Hx.
      * right. exists i, e. split; [done|]. by rewrite Nat.add_succ_r in Hx.
Qed.

Lemma filter_all {A} (P : A → Prop) `{∀ x, Decision (P x)} (l : list A) :
  (∀ x, x ∈ l → P x) → filter P l = l.
Proof.
  induction l as [|x l IH]; intros Hl; [done|].
  rewrite filter_cons_True by (apply Hl; left).
  rewrite IH; [done|]. intros; apply Hl. by right.
Qed.

Lemma filter_none {A} (P : A → Prop) `{∀ x, Decision (P x)} (l : list A) :
  (∀ x, x ∈ l → ¬ P x) → filter P l = [].
Proof.
  induction l as [|x l IH]; intros Hl; [done|].
  rewrite filter_cons_False by (apply Hl; left).
  apply IH. intros; apply Hl. by right.
Qed.

(** What an entity adds to a light list points into that entity. *)
Lemma collect_filter (f : nat → @Entity F → list ptr) k es i e :
  (∀ i' e' p, p ∈ f i' e' → p.1 = i') →
  es !! i = Some e →
  filter (λ p, p.1 = k + i) (collect f k es) = f (k + i) e.
Proof.
  intros Hf. revert k i. induction es as [|e0 es IH]; intros k i Hi; [done|].
  cbn [collect]. rewrite filter_app. destruct i as [|i]; simpl in Hi.
  - simplify_eq. rewrite Nat.add_0_r.
    rewrite filter_all by (intros p Hp; by apply Hf in Hp).
    rewrite filter_none; [by rewrite app_nil_r|].
    intros p (i' & e' & _ & Hp%Hf)%elem_of_collect. lia.
  - rewrite filter_none by (intros p Hp%Hf; lia).
    rewrite Nat.add_succ_r. by apply (IH (S k)).
Qed.

Lemma directional_of_place i (e : @Entity F) p : p ∈ directional_of i e → p.1 = i.
Proof.
  unfold directional_of. destruct (getComponent _ e) as [[? ?]|];
    [by intros ->%list_elem_of_singleton|by intros ?%elem_of_nil].
Qed.
Lemma spot_of_place i (e : @Entity F) p : p ∈ spot_of i e → p.1 = i.
Proof.
  unfold spot_of. destruct (getComponent _ e) as [[? ?]|];
    [by intros ->%list_elem_of_singleton|by intros ?%elem_of_nil].
Qed.
Lemma cone_of_place i (e : @Entity F) p : p ∈ cone_of i e → p.1 = i.
Proof. unfold cone_of. by intros (? & -> & _)%list_elem_of_fmap. Qed.

(** *** What the collected pointers point to *)

Lemma directional_of_elem i (e : @Entity F) p :
  p ∈ directional_of i e ↔
  p.1 = i ∧ (∃ l, components e !! p.2 = Some (DirectionalLightC l))
  ∧ ∀ j c, j < p.2 → components e !! j = Some c → as_DirectionalLight c = None.
Proof.
  unfold directional_of, getComponent.
  destruct (getComponent_from _ 0 _) as [[j l]|] eqn:He.
  - apply getComponent_from_Some in He as (j' & -> & (c & Hc & Hcast) & Hfirst).
    destruct c; try done; simpl in Hcast; simplify_eq.
    rewrite list_elem_of_singleton. split.
    + intros ->. split; [done|]. split; [by exists l|done].
    + destruct p as [i' j]. cbn. intros (-> & (l' & Hl') & Hfirst'). f_equal.
      destruct (Nat.lt_trichotomy j j') as [?|[?|?]]; [|done|].
      * specialize (Hfirst _ _ H Hl'). done.
      * specialize (Hfirst' _ _ H Hc). done.
  - split; [by intros ?%elem_of_nil|]. intros (_ & (l & Hl) & _).
    eapply getComponent_from_None in He; [|by eapply list_elem_of_lookup_2]. done.
Qed.

Lemma spot_of_elem i (e : @Entity F) p :
  p ∈ spot_of i e ↔
  p.1 = i ∧ (∃ l, components e !! p.2 = Some (SpotLightC l))
  ∧ ∀ j c, j < p.2 → components e !! j = Some c → as_SpotLight c = None.
Proof.
  unfold spot_of, getComponent.
  destruct (getComponent_from _ 0 _) as [[j l]|] eqn:He.
  - apply getComponent_from_Some in He as (j' & -> & (c & Hc & Hcast) & Hfirst).
    destruct c; try done; simpl in Hcast; simplify_eq.
    rewrite list_elem_of_singleton. split.
    + intros ->. split; [done|]. split; [by exists l|done].
    + destruct p as [i' j]. cbn. intros (-> & (l' & Hl') & Hfirst'). f_equal.
      destruct (Nat.lt_trichotomy j j') as [?|[?|?]]; [|done|].
      * specialize (Hfirst _ _ H Hl'). done.
      * specialize (Hfirst' _ _ H Hc). done.
  - split; [by intros ?%elem_of_nil|]. intros (_ & (l & Hl) & _).
    eapply getComponent_from_None in He; [|by eapply list_elem_of_lookup_2]. done.
Qed.

Lemma spot_of_first i (e : @Entity F) p :
  p ∈ spot_of i e → fst <$> getComponent as_SpotLight e = Some p.2.
Proof.
  unfold spot_of. destruct (getComponent _ e) as [[? ?]|];
    [by intros ->%list_elem_of_singleton|by intros ?%elem_of_nil].
Qed.

Lemma cone_of_elem i (e : @Entity F) p :
  p ∈ cone_of i e ↔ p.1 = i ∧ ∃ l, components e !! p.2 = Some (ConeLightC l).
Proof.
  unfold cone_of, getAllComponents. rewrite list_elem_of_fmap. split.
  - intros ([j l] & -> & (j' & c & -> & Hc & Hcast)%getAllComponents_from_elem).
    destruct c; try done; simpl in Hcast; simplify_eq. split; [done|]. by exists l.
  - destruct p as [i' j]. cbn. intros (-> & l & Hl). exists (j, l). split; [done|].
    apply getAllComponents_from_elem. by exists j, (ConeLightC l).
Qed.

Lemma visited_directional (world : list (@Entity F)) p l :
  deref world p = Some (DirectionalLightC l) →
  deref (visited <$> world) p = Some (DirectionalLightC l).
Proof.
  unfold deref. rewrite list_lookup_fmap.
  destruct (world !! p.1) as [e|]; cbn [fmap option_fmap option_map mbind option_bind]; [|done].
  intros Hl. rewrite visited_lookup, Hl. unfold written. by case_bool_decide.
Qed.

(** C8.  Traversal never writes to a directional light: every
    directional light collected in a frame is, after [render], the very
    record it was before, field for field; and the same holds of every
    directional light of the scene, collected or not. *)
Theorem directional_light_untouched (this : @ForwardRenderer F) (world : World) gl p :
  p ∈ directionalLights (render this world gl).1.1 →
  (∃ l, deref world p = Some (DirectionalLightC l)
        ∧ deref (render this world gl).1.2 p = Some (DirectionalLightC l))
  ∧ ∀ q l, deref world q = Some (DirectionalLightC l) →
           deref (render this world gl).1.2 q = Some (DirectionalLightC l).
Proof.
  destruct (render_lights this world gl) as (-> & _ & _). rewrite render_scene.
  intros (i & e & Hi & Hp)%elem_of_collect. cbn in Hp.
  apply directional_of_elem in Hp as (Hp1 & (l & Hl) & _).
  split; [|apply visited_directional].
  assert (deref world p = Some (DirectionalLightC l)) as Hd.
  { unfold deref. by rewrite Hp1, Hi. }
  exists l. split; [done|]. by apply visited_directional.
Qed.

Lemma getAllComponents_from_length {T} (cast : @Component F → option T) k cs :
  length (getAllComponents_from cast k cs) = length (omap cast cs).
Proof.
  revert k. induction cs as [|c cs IH]; intros k; [done|].
  cbn. destruct (cast c); cbn; by rewrite IH.
Qed.

(** C10.  From the entity met in place [i], a frame collects at most
    one directional light and at most one spot light, each the first of
    its kind among the entity's components, and every cone light the
    entity carries: the cone list holds exactly one pointer per cone-light
    component of the entity, in the entity's order. *)
Theorem lights_collected_per_entity (this : @ForwardRenderer F) (world : World) gl i e :
  world !! i = Some e →
  let this' := (render this world gl).1.1 in
  length (filter (λ p, p.1 = i) (directionalLights this')) ≤ 1
  ∧ length (filter (λ p, p.1 = i) (spotLights this')) ≤ 1
  ∧ filter (λ p, p.1 = i) (coneLights this')
    = (λ x, (i, x.1)) <$> getAllComponents as_ConeLight e
  ∧ length (filter (λ p, p.1 = i) (coneLights this'))
    = length (omap as_ConeLight (components e))
  ∧ (∀ j, (i, j) ∈ coneLights this' ↔ ∃ l, components e !! j = Some (ConeLightC l))
  ∧ (∀ j, (i, j) ∈ spotLights this' ↔
          (∃ l, components e !! j = Some (SpotLightC l))
          ∧ ∀ j' c, j' < j → components e !! j' = Some c → as_SpotLight c = None)
  ∧ (∀ j, (i, j) ∈ directionalLights this' ↔
          (∃ l, components e !! j = Some (DirectionalLightC l))
          ∧ ∀ j' c, j' < j → components e !! j' = Some c → as_DirectionalLight c = None).
Proof.
  intros Hi this'. subst this'.
  destruct (render_lights this world gl) as (-> & -> & ->).
  pose proof (collect_filter directional_of 0 world i e directional_of_place Hi) as Hd.
  pose proof (collect_filter spot_of 0 world i e spot_of_place Hi) as Hs.
  pose proof (collect_filter cone_of 0 world i e cone_of_place Hi) as Hc.
  cbn in Hd, Hs, Hc. rewrite Hd, Hs, Hc.
  assert (Hmem : ∀ (f : nat → @Entity F → list ptr) j,
            (∀ i' e' p, p ∈ f i' e' → p.1 = i') →
            (i, j) ∈ collect f 0 world ↔ (i, j) ∈ f i e).
  { intros f j Hf. rewrite elem_of_collect. split.
    - intros (i' & e' & Hi' & Hp). cbn in Hp. pose proof (Hf _ _ _ Hp) as Heq.
      cbn in Heq. subst i'. by simplify_eq.
    - intros Hp. by exists i, e. }
  split_and!.
  - unfold directional_of. destruct (getComponent _ e) as [[? ?]|]; simpl; lia.
  - unfold spot_of. destruct (getComponent _ e) as [[? ?]|]; simpl; lia.
  - done.
  - unfold cone_of, getAllComponents.
    by rewrite length_fmap, getAllComponents_from_length.
  - intros j. rewrite (Hmem cone_of j cone_of_place), cone_of_elem. cbn [fst snd]. tauto.
  - intros j. rewrite (Hmem spot_of j spot_of_place), spot_of_elem. cbn [fst snd]. tauto.
  - intros j. rewrite (Hmem directional_of j directional_of_place), directional_of_elem.
    cbn [fst snd]. tauto.
Qed.

Lemma written_same_but_caches (e : @Entity F) j c : same_but_caches c (written e j c).
Proof. unfold written. case_bool_decide; by destruct c. Qed.

Lemma written_uncollected (world : list (@Entity F)) i e j c :
  world !! i = Some e →
  (i, j) ∉ collect spot_of 0 world →
  as_ConeLight c = None →
  written e j c = c.
Proof.
  intros Hi Hspot Hcone. unfold written. case_bool_decide as Hfirst.
  - destruct Hspot. apply elem_of_collect. exists i, e. split; [done|].
    unfold spot_of. cbn [Nat.add]. destruct (getComponent as_SpotLight e) as [[j' l]|];
      [|done]. cbn in Hfirst. injection Hfirst as ->. by apply list_elem_of_singleton.
  - by destruct c.
Qed.

(** C2, as the code has it.  In a frame in which no entity carries a
    camera, [render] asks nothing of the graphics side (no clear, no draw,
    no call at all: the context is returned as it was), leaves every
    member of the renderer but the five per-frame lists as it was, and
    leaves the scene as it was up to the caches that traversal writes:
    transforms and the number and kind of components are unchanged, a
    component differs from what it was at most in the world position of a
    spot light or the world position and world direction of a cone light,
    and a component that is neither a collected spot light nor a cone
    light, a spot light that was not collected included, is exactly as it
    was. *)
Theorem render_without_camera_effects (this : @ForwardRenderer F) (world : World) gl :
  no_camera world →
  let this' := (render this world gl).1.1 in
  let world' := (render this world gl).1.2 in
  (render this world gl).2 = gl
  ∧ resources this' = resources this
  ∧ opaqueCommands this' = collected_opaque world
  ∧ transparentCommands this' = collected_transparent world
  ∧ length world' = length world
  ∧ ∀ i e, world !! i = Some e →
      ∃ e', world' !! i = Some e'
        ∧ getLocalToWorldMatrix e' = getLocalToWorldMatrix e
        ∧ length (components e') = length (components e)
        ∧ ∀ j c, components e !! j = Some c →
            ∃ c', components e' !! j = Some c' ∧ same_but_caches c c'
                  ∧ ((i, j) ∉ spotLights this' → as_ConeLight c = None → c' = c).
Proof.
  intros Hcam%(first_camera_from_None 0).
  rewrite (render_without_camera this world gl Hcam). cbn [fst snd]. split_and!.
  - done.
  - done.
  - done.
  - done.
  - by rewrite length_fmap.
  - intros i e Hi. exists (visited e). rewrite list_lookup_fmap, Hi.
    split_and!; [done|done|apply visited_length|].
    intros j c Hc. exists (written e j c). rewrite visited_lookup, Hc.
    split_and!; [done|apply written_same_but_caches|].
    cbn [collected with_lists spotLights]. intros Hspot Hcone.
    by apply written_uncollected with world i.
Qed.

Lemma draw_calls_app (l1 l2 : list (@gl_event F)) :
  draw_calls (l1 ++ l2) = draw_calls l1 ++ draw_calls l2.
Proof. apply List.filter_app. Qed.

Lemma draw_calls_bind_each (bind : nat → ptr → list (@gl_event F)) i lights :
  (∀ i p, draw_calls (bind i p) = []) → draw_calls (bind_each bind i lights) = [].
Proof.
  intros Hbind. revert i. induction lights as [|p rest IH]; intros i; [done|].
  cbn [bind_each]. by rewrite draw_calls_app, Hbind, IH.
Qed.

Lemma draw_calls_bind_lights (this : @ForwardRenderer F) world sh :
  draw_calls (bind_lights this world sh) = [].
Proof.
  unfold bind_lights. rewrite !draw_calls_app, !draw_calls_bind_each; [done|..];
    intros i p; unfold bind_ConeLight, bind_SpotLight, bind_DirectionalLight;
    by destruct (deref world p) as [[]|].
Qed.

Lemma draw_calls_draw_opaque (this : @ForwardRenderer F) world VP cameraCenter k :
  draw_calls (draw_opaque this world VP cameraCenter k) = [Mesh_draw (mesh k)].
Proof.
  unfold draw_opaque. destruct (is_DefaultMaterial (material k)); [|done].
  by rewrite !draw_calls_app, draw_calls_bind_lights.
Qed.

Lemma draw_calls_draw_transparent (this : @ForwardRenderer F) world VP cameraCenter k :
  draw_calls (draw_transparent this world VP cameraCenter k) = [Mesh_draw (mesh k)].
Proof.
  unfold draw_transparent. destruct (is_DefaultMaterial (material k)); [|done].
  by rewrite !draw_calls_app, draw_calls_bind_lights.
Qed.

Lemma draw_calls_flat_map (f : @RenderCommand F → list (@gl_event F)) commands :
  (∀ k, draw_calls (f k) = [Mesh_draw (mesh k)]) →
  draw_calls (flat_map f commands) = (λ k, Mesh_draw (mesh k)) <$> commands.
Proof.
  intros Hf. induction commands as [|k rest IH]; [done|].
  cbn [flat_map]. by rewrite draw_calls_app, Hf, IH.
Qed.

Lemma draw_calls_draw_sky (this : @ForwardRenderer F) camera VP cameraCenter m :
  draw_calls (draw_sky this camera VP cameraCenter m)
  = match skySphere this with Some sphere => [Mesh_draw sphere] | None => [] end.
Proof. unfold draw_sky. rewrite draw_calls_app. by destruct (skySphere this). Qed.


Lemma GLint_cast_small n : (0 ≤ n < 2 ^ 31)%Z → GLint_cast n = n.
Proof. intros Hn. unfold GLint_cast. rewrite Z.mod_small; lia. Qed.

Lemma elem_of_bind_each (bind : nat → ptr → list (@gl_event F)) i lights x :
  x ∈ bind_each bind i lights ↔ ∃ n p, lights !! n = Some p ∧ x ∈ bind (i + n) p.
Proof.
  revert i. induction lights as [|p0 rest IH]; intros i; cbn [bind_each].
  - split; [by intros ?%elem_of_nil|]. by intros (? & ? & ? & _).
  - rewrite elem_of_app, IH. split.
    + intros [?|(n & p & ? & Hx)].
      * exists 0, p0. by rewrite Nat.add_0_r.
      * exists (S n), p. split; [done|]. by rewrite Nat.add_succ_r.
    + intros ([|n] & p & Hl & Hx); simpl in Hl.
      * left. simplify_eq. by rewrite Nat.add_0_r in Hx.
      * right. exists n, p. split; [done|]. by rewrite Nat.add_succ_r in Hx.
Qed.

Lemma bind_lights_names (this : @ForwardRenderer F) world sh sh' name v :
  ShaderProgram_set sh' name v ∈ bind_lights this world sh → ¬ is_frame_uniform name.
Proof.
  unfold bind_lights, is_frame_uniform.
  rewrite !elem_of_app, !list_elem_of_singleton, !elem_of_bind_each.
  intros [H|[(n & p & _ & H)|[H|[(n & p & _ & H)|[H|(n & p & _ & H)]]]]];
    try (injection H as -> -> ->; intros [|[|[|]]]; discriminate).
  - unfold bind_DirectionalLight in H. destruct (deref world p) as [[]|];
      try by apply elem_of_nil in H.
    repeat (apply elem_of_cons in H as [H|H]; [injection H as -> -> ->; cbn; intros [|[|[|]]]; discriminate|]).
    by apply elem_of_nil in H.
  - unfold bind_SpotLight in H. destruct (deref world p) as [[]|];
      try by apply elem_of_nil in H.
    repeat (apply elem_of_cons in H as [H|H]; [injection H as -> -> ->; cbn; intros [|[|[|]]]; discriminate|]).
    by apply elem_of_nil in H.
  - unfold bind_ConeLight in H. destruct (deref world p) as [[]|];
      try by apply elem_of_nil in H.
    repeat (apply elem_of_cons in H as [H|H]; [injection H as -> -> ->; cbn; intros [|[|[|]]]; discriminate|]).
    by apply elem_of_nil in H.
Qed.

Lemma frame_uniform_bound (this : @ForwardRenderer F) world sh (first : list gl_event)
    name v :
  is_frame_uniform name →
  (∀ v', ShaderProgram_set sh name v' ∈ first ↔ v' = v) →
  ∀ v', ShaderProgram_set sh name v' ∈ first ++ bind_lights this world sh ↔ v' = v.
Proof.
  intros Hname Hfirst v'. rewrite elem_of_app, Hfirst. split; [|by left].
  intros [?|Hin]; [done|]. by apply bind_lights_names in Hin.
Qed.

Lemma bind_lights_counts (this : @ForwardRenderer F) world sh :
  ShaderProgram_set sh "directionalLightCount"
    (UInt (GLint_cast (Z.of_nat (length (directionalLights this)))))
    ∈ bind_lights this world sh
  ∧ ShaderProgram_set sh "spotLightsCount"
      (UInt (GLint_cast (Z.of_nat (length (spotLights this)))))
      ∈ bind_lights this world sh
  ∧ ShaderProgram_set sh "coneLightsCount"
      (UInt (GLint_cast (Z.of_nat (length (coneLights this)))))
      ∈ bind_lights this world sh.
Proof.
  unfold bind_lights. rewrite !elem_of_app, !list_elem_of_singleton. tauto.
Qed.

Lemma bind_lights_directional (this : @ForwardRenderer F) world sh n p l :
  directionalLights this !! n = Some p →
  deref world p = Some (DirectionalLightC l) →
  ShaderProgram_set sh (indexed "directionalLights" n "direction") (dl_direction l)
    ∈ bind_lights this world sh
  ∧ ShaderProgram_set sh (indexed "directionalLights" n "intensity") (dl_intensity l)
    ∈ bind_lights this world sh
  ∧ ShaderProgram_set sh (indexed "directionalLights" n "color") (dl_color l)
    ∈ bind_lights this world sh.
Proof.
  intros Hn Hp. unfold bind_lights.
  assert (Hin : ∀ x, x ∈ bind_DirectionalLight sh world n p →
            x ∈ bind_each (bind_DirectionalLight sh world) 0 (directionalLights this)).
  { intros x Hx. apply elem_of_bind_each. by exists n, p. }
  unfold bind_DirectionalLight in Hin. rewrite Hp in Hin.
  split_and!; rewrite !elem_of_app; right; left; apply Hin;
    rewrite !elem_of_cons; auto.
Qed.

Lemma bind_lights_spot (this : @ForwardRenderer F) world sh n p l :
  spotLights this !! n = Some p →
  deref world p = Some (SpotLightC l) →
  ShaderProgram_set sh (indexed "spotLights" n "position") (UVec3 (sl_worldPosition l))
    ∈ bind_lights this world sh
  ∧ ShaderProgram_set sh (indexed "spotLights" n "intensity") (sl_intensity l)
    ∈ bind_lights this world sh
  ∧ ShaderProgram_set sh (indexed "spotLights" n "color") (sl_color l)
    ∈ bind_lights this world sh
  ∧ ShaderProgram_set sh (indexed "spotLights" n "decay") (sl_lightDecay l)
    ∈ bind_lights this world sh.
Proof.
  intros Hn Hp. unfold bind_lights.
  assert (Hin : ∀ x, x ∈ bind_SpotLight sh world n p →
            x ∈ bind_each (bind_SpotLight sh world) 0 (spotLights this)).
  { intros x Hx. apply elem_of_bind_each. by exists n, p. }
  unfold bind_SpotLight in Hin. rewrite Hp in Hin.
  split_and!; rewrite !elem_of_app; do 3 right; left; apply Hin;
    rewrite !elem_of_cons; auto 10.
Qed.

Lemma bind_lights_cone (this : @ForwardRenderer F) world sh n p l :
  coneLights this !! n = Some p →
  deref world p = Some (ConeLightC l) →
  ShaderProgram_set sh (indexed "coneLights" n "position") (UVec3 (cl_worldPosition l))
    ∈ bind_lights this world sh
  ∧ ShaderProgram_set sh (indexed "coneLights" n "intensity") (cl_intensity l)
    ∈ bind_lights this world sh
  ∧ ShaderProgram_set sh (indexed "coneLights" n "color") (cl_color l)
    ∈ bind_lights this world sh
  ∧ ShaderProgram_set sh (indexed "coneLights" n "direction") (UVec3 (cl_worldDirection l))
    ∈ bind_lights this world sh
  ∧ ShaderProgram_set sh (indexed "coneLights" n "range") (cl_range l)
    ∈ bind_lights this world sh
  ∧ ShaderProgram_set sh (indexed "coneLights" n "smoothing") (cl_smoothing l)
    ∈ bind_lights this world sh
  ∧ ShaderProgram_set sh (indexed "coneLights" n "decay") (cl_lightDecay l)
    ∈ bind_lights this world sh.
Proof.
  intros Hn Hp. unfold bind_lights.
  assert (Hin : ∀ x, x ∈ bind_ConeLight sh world n p →
            x ∈ bind_each (bind_ConeLight sh world) 0 (coneLights this)).
  { intros x Hx. apply elem_of_bind_each. by exists n, p. }
  unfold bind_ConeLight in Hin. rewrite Hp in Hin.
  split_and!; rewrite !elem_of_app; do 5 right; apply Hin;
    rewrite !elem_of_cons; auto 10.
Qed.

Lemma lit_binding_holds (this : @ForwardRenderer F) world VP cameraCenter k first :
  (∀ name v, ShaderProgram_set (shader (material k)) name v ∈ first ↔
     (name = "transform" ∧ v = UMat4 (localToWorld k))
     ∨ (name = "Camera" ∧ v = UMat4 VP)
     ∨ (name = "cameraPosition" ∧ v = UVec3 cameraCenter)
     ∨ (name = "areaLight" ∧ v = UVec3 (areaLight this))) →
  lit_binding this world VP cameraCenter k
    ([Material_setup (material k)]
     ++ (first ++ bind_lights this world (shader (material k)))
     ++ [Mesh_draw (mesh k)]).
Proof.
  intros Hfirst. set (sh := shader (material k)) in *.
  assert (Hmid : ∀ x, x ∈ bind_lights this world sh →
            x ∈ [Material_setup (material k)] ++ (first ++ bind_lights this world sh)
                ++ [Mesh_draw (mesh k)]).
  { intros x Hx. rewrite !elem_of_app. auto. }
  assert (Hset : ∀ name v, is_frame_uniform name →
            (∀ v', ShaderProgram_set sh name v' ∈ first ↔ v' = v) →
            ∀ v', ShaderProgram_set sh name v'
                    ∈ [Material_setup (material k)] ++ (first ++ bind_lights this world sh)
                      ++ [Mesh_draw (mesh k)] ↔ v' = v).
  { intros name v Hname Hv v'.
    rewrite <- (frame_uniform_bound this world sh first name v Hname Hv v').
    rewrite !elem_of_app, !list_elem_of_singleton. split; [|auto].
    intros [?|[?|?]]; done. }
  unfold lit_binding. fold sh. unfold is_frame_uniform in Hset. split_and!.
  - apply Hset; [auto|]. intros v'. rewrite Hfirst. split; [|intros ->; auto 10].
    by intros [[? ?]|[[? ?]|[[? ?]|[? ?]]]].
  - apply Hset; [auto|]. intros v'. rewrite Hfirst. split; [|intros ->; auto 10].
    by intros [[? ?]|[[? ?]|[[? ?]|[? ?]]]].
  - apply Hset; [auto|]. intros v'. rewrite Hfirst. split; [|intros ->; auto 10].
    by intros [[? ?]|[[? ?]|[[? ?]|[? ?]]]].
  - apply Hset; [auto 10|]. intros v'. rewrite Hfirst. split; [|intros ->; auto 10].
    by intros [[? ?]|[[? ?]|[[? ?]|[? ?]]]].
  - apply Hmid, bind_lights_counts.
  - apply Hmid, bind_lights_counts.
  - apply Hmid, bind_lights_counts.
  - intros n p l Hn Hp.
    destruct (bind_lights_directional this world sh n p l Hn Hp) as (?&?&?). auto.
  - intros n p l Hn Hp.
    destruct (bind_lights_spot this world sh n p l Hn Hp) as (?&?&?&?). auto.
  - intros n p l Hn Hp.
    destruct (bind_lights_cone this world sh n p l Hn Hp) as (?&?&?&?&?&?&?).
    split_and!; auto.
Qed.

(** C4.  The events of binding and drawing one command, in the opaque
    loop or in the transparent one.  For a lit ([DefaultMaterial])
    material the shader's "transform" is set to the command's
    [localToWorld] and to nothing else, "Camera" to [VP], "cameraPosition"
    and "areaLight" to the camera centre and the ambient term, each light
    list's count is bound, and every field of every listed light is bound
    under its indexed name.  For any other material the events are the
    material's setup, "transform" set to [VP * localToWorld], and the
    draw: no lighting uniform is bound.  Counts below 2^31 are bound as
    they are. *)
Theorem material_binding (this : @ForwardRenderer F) (world : World) VP cameraCenter k events :
  events = draw_opaque this world VP cameraCenter k
  ∨ events = draw_transparent this world VP cameraCenter k →
  (is_DefaultMaterial (material k) = true →
     lit_binding this world VP cameraCenter k events)
  ∧ (is_DefaultMaterial (material k) = false →
     events = [Material_setup (material k);
               ShaderProgram_set (shader (material k)) "transform"
                 (UMat4 (mat4_mul VP (localToWorld k)));
               Mesh_draw (mesh k)])
  ∧ ∀ n : nat, (Z.of_nat n < 2 ^ 31)%Z → GLint_cast (Z.of_nat n) = Z.of_nat n.
Proof.
  intros Hevents. split_and!.
  - intros Hlit.
    destruct Hevents as [-> | ->]; unfold draw_opaque, draw_transparent; rewrite Hlit;
      apply lit_binding_holds; intros name v;
      rewrite !elem_of_cons, elem_of_nil;
      (split; [intros [H|[H|[H|[H|[]]]]]; injection H as -> ->; auto 10
             |intros [[-> ->]|[[-> ->]|[[-> ->]|[-> ->]]]]; auto 10]).
  - intros Hlit.
    by destruct Hevents as [-> | ->]; unfold draw_opaque, draw_transparent; rewrite Hlit.
  - intros n Hn. apply GLint_cast_small. lia.
Qed.

Lemma flat_map_split {A B} (f : A → list B) (l : list A) k :
  k ∈ l → ∃ before after, flat_map f l = before ++ f k ++ after.
Proof.
  intros (l1 & l2 & ->)%list_elem_of_split.
  exists (flat_map f l1), (flat_map f l2). by rewrite flat_map_app.
Qed.

(** Every command of a frame is bound and drawn by the body of its
    loop, with the frame's view-projection matrix and camera centre. *)
Lemma render_draws_each_command (this : @ForwardRenderer F) (world : World) gl i j
    owner camera k :
  first_camera world = Some (i, j) →
  world !! i = Some owner →
  components owner !! j = Some (CameraC camera) →
  let this' := (render this world gl).1.1 in
  let world' := (render this world gl).1.2 in
  let VP := mat4_mul (getProjectionMatrix camera (windowSize this)) (getViewMatrix camera) in
  let cameraCenter := camera_center (getLocalToWorldMatrix owner) in
  (k ∈ opaqueCommands this' →
     ∃ before after, log (render this world gl).2
       = before ++ draw_opaque this' world' VP cameraCenter k ++ after)
  ∧ (k ∈ transparentCommands this' →
     ∃ before after, log (render this world gl).2
       = before ++ draw_transparent this' world' VP cameraCenter k ++ after).
Proof.
  intros Hcam Hi Hj. rewrite (render_with_camera _ _ _ _ _ _ _ Hcam Hi Hj).
  cbn [fst snd log]. unfold frame_events.
  set (this' := sorted_frame this world owner).
  change (windowSize this') with (windowSize this).
  split; intros Hk.
  - destruct (flat_map_split
      (draw_opaque this' (visited <$> world)
         (mat4_mul (getProjectionMatrix camera (windowSize this)) (getViewMatrix camera))
         (camera_center (getLocalToWorldMatrix owner))) _ k Hk) as (b & a & ->).
    match goal with
    | |- ∃ _ _, ?l ++ ?A1 ++ ?A2 ++ ?A3 ++ (b ++ ?X ++ a) ++ ?rest = _ =>
        exists (l ++ A1 ++ A2 ++ A3 ++ b), (a ++ rest)
    end.
    by rewrite <- !app_assoc.
  - destruct (flat_map_split
      (draw_transparent this' (visited <$> world)
         (mat4_mul (getProjectionMatrix camera (windowSize this)) (getViewMatrix camera))
         (camera_center (getLocalToWorldMatrix owner))) _ k Hk) as (b & a & ->).
    match goal with
    | |- ∃ _ _, ?l ++ ?A1 ++ ?A2 ++ ?A3 ++ ?A4 ++ ?A5 ++ (b ++ ?X ++ a) ++ ?rest = _ =>
        exists (l ++ A1 ++ A2 ++ A3 ++ A4 ++ A5 ++ b), (a ++ rest)
    end.
    by rewrite <- !app_assoc.
Qed.


(** With the sky material set, the frame binds and draws the sky between
    the two loops. *)
Lemma render_draws_sky (this : @ForwardRenderer F) (world : World) gl i j owner camera m :
  first_camera world = Some (i, j) →
  world !! i = Some owner →
  components owner !! j = Some (CameraC camera) →
  skyMaterial this = Some m →
  let this' := (render this world gl).1.1 in
  let VP := mat4_mul (getProjectionMatrix camera (windowSize this)) (getViewMatrix camera) in
  let cameraCenter := camera_center (getLocalToWorldMatrix owner) in
  ∃ before after,
    log (render this world gl).2
    = before ++ draw_sky this' camera VP cameraCenter m ++ after.
Proof.
  intros Hcam Hi Hj Hm. rewrite (render_with_camera _ _ _ _ _ _ _ Hcam Hi Hj).
  cbn [fst snd log]. unfold frame_events.
  set (this' := sorted_frame this world owner).
  change (windowSize this') with (windowSize this).
  change (skyMaterial this') with (skyMaterial this). rewrite Hm.
  match goal with
  | |- ∃ _ _, ?l ++ ?A1 ++ ?A2 ++ ?A3 ++ ?A4 ++ ?X ++ ?rest = _ =>
      exists (l ++ A1 ++ A2 ++ A3 ++ A4), rest
  end.
  by rewrite <- !app_assoc.
Qed.
(** *** [initialize], run *)

Ltac run_M :=
  lazy [mbind M_bind mret M_ret create call assign throw fst snd next_name log
        string_from_json];
  rewrite <- ?app_assoc.

Lemma initialize_sky_run (config : gmap string (@json F)) this gl file :
  config !! "sky" = Some (JString file) →
  initialize_sky config (this, gl)
  = ((set_skyMaterial (Some (sky_material (next_name gl)))
        (set_skySphere (Some (1 + next_name gl)) this),
      {| next_name := 4 + next_name gl;
         log := log gl ++ sky_events (next_name gl) file |}),
     inr ()).
Proof.
  intros Hsky. unfold initialize_sky, value. rewrite Hsky. run_M. reflexivity.
Qed.

Lemma initialize_postprocess_run constructed windowSize (config : gmap string (@json F))
    this gl file :
  config !! "postprocess" = Some (JString file) →
  initialize_postprocess constructed windowSize config (this, gl)
  = ((set_postprocessMaterial
        (Some (postprocess_material (constructed TexturedMaterial) (next_name gl)))
        (set_postProcessVertexArray (4 + next_name gl)
           (set_depthTarget (Some (3 + next_name gl))
              (set_colorTarget (Some (2 + next_name gl))
                 (set_postprocessFrameBuffer (1 + next_name gl) this)))),
      {| next_name := 6 + next_name gl;
         log := log gl ++ postprocess_events (next_name gl) windowSize file |}),
     inr ()).
Proof.
  intros Hpost. unfold initialize_postprocess, value. rewrite Hpost. run_M. reflexivity.
Qed.

Lemma value_areaLight (config : gmap string (@json F)) s :
  areaLight_readable config →
  ∃ v, value vec3_from_json config "areaLight" (Vec3 f1 f1 f1) s = (s, inr v).
Proof.
  intros Hr. unfold value. destruct (config !! "areaLight") as [j|] eqn:Hj.
  - destruct (Hr j Hj) as [v ->]. by exists v.
  - by eexists.
Qed.

Lemma contains_Some (config : gmap string (@json F)) key j :
  config !! key = Some j → contains config key = true.
Proof. intros H. unfold contains. rewrite H. by apply bool_decide_eq_true. Qed.
Lemma contains_None (config : gmap string (@json F)) key :
  config !! key = None → contains config key = false.
Proof.
  intros H. unfold contains. rewrite H. apply bool_decide_eq_false. by intros [? ?].
Qed.

Lemma areaLight_readable_absent (config : gmap string (@json F)) :
  config !! "areaLight" = None → areaLight_readable config.
Proof. intros H j Hj. congruence. Qed.

(** C9.  [initialize] allocates by configuration key.  With [areaLight]
    absent or readable: if [postprocess] is configured (with a path) and
    [sky] is not, an RGBA8 and a 24-bit depth texture of the window's size
    are created and attached to the one framebuffer created, and no sky
    resource is (no sphere, no image, no second shader or sampler, sky
    members untouched); if [sky] is configured (with a path) and
    [postprocess] is not, the sphere, the sky shader, image, sampler and
    material are created and no framebuffer, empty texture or attachment
    is, the post-processing members being untouched. *)
Theorem initialize_allocates_by_key constructed windowSize
    (config : gmap string (@json F)) this gl :
  areaLight_readable config →
  (∀ file, config !! "sky" = None → config !! "postprocess" = Some (JString file) →
     postprocess_only_outcome constructed windowSize config this gl)
  ∧ (∀ file, config !! "postprocess" = None → config !! "sky" = Some (JString file) →
     sky_only_outcome constructed windowSize config this gl file).
Proof.
  intros Harea.
  destruct (value_areaLight config (set_windowSize windowSize this, gl) Harea) as [v Hv].
  split; intros file Hno Hyes;
    unfold postprocess_only_outcome, sky_only_outcome, initialize;
    rewrite (contains_None _ _ Hno), (contains_Some _ _ _ Hyes).
  - do 3 eexists. exists (postprocess_material (constructed TexturedMaterial) (next_name gl)).
    exists (2 + next_name gl), (3 + next_name gl).
    split.
    { lazy [mbind M_bind assign fst snd]. rewrite Hv.
      lazy [mbind M_bind mret M_ret assign fst snd].
      apply initialize_postprocess_run, Hyes. }
    cbn [log]. split; [reflexivity|]. by destruct this.
  - do 3 eexists. exists (1 + next_name gl), (sky_material (next_name gl)), (3 + next_name gl).
    split.
    { lazy [mbind M_bind assign fst snd]. rewrite Hv.
      lazy [mbind M_bind mret M_ret assign fst snd].
      rewrite (initialize_sky_run _ _ _ _ Hyes). reflexivity. }
    cbn [log]. split; [reflexivity|]. by destruct this.
Qed.

(** *** The standard sort *)

Section Sorting.
Context {A : Type} (comp : A → A → bool).

Lemma sort_insert_Permutation a l : sort_insert comp a l ≡ₚ a :: l.
Proof.
  induction l as [|b l IH]; cbn [sort_insert]; [done|].
  destruct (comp b a); [|done]. rewrite IH. apply Permutation_swap.
Qed.

Lemma std_sort_Permutation l : std_sort comp l ≡ₚ l.
Proof.
  unfold std_sort. induction l as [|a l IH]; cbn [foldr]; [done|].
  by rewrite sort_insert_Permutation, IH.
Qed.

Hypothesis comp_asym : ∀ a b, comp a b = true → comp b a = false.

Lemma ordered_by_cons a l :
  ordered_by comp (a :: l) ↔ (∀ b, head l = Some b → comp b a = false) ∧ ordered_by comp l.
Proof.
  unfold ordered_by. split.
  - intros H. split.
    + intros b Hb. apply (H 0 a b); [done|]. by destruct l; simplify_eq/=.
    + intros n x y Hx Hy. by apply (H (S n) x y).
  - intros [Hhd Htl] [|n] x y Hx Hy; simplify_eq/=.
    + apply Hhd. by destruct l; simplify_eq/=.
    + by apply (Htl n).
Qed.

Lemma sort_insert_ordered a l : ordered_by comp l → ordered_by comp (sort_insert comp a l).
Proof.
  induction l as [|b l IH]; cbn [sort_insert]; intros Hl.
  - by intros [|?] ?? ? ?.
  - destruct (comp b a) eqn:Hba.
    + apply ordered_by_cons in Hl as [Hhd Htl]. apply ordered_by_cons.
      split; [|by apply IH]. intros c. destruct l as [|b' l]; cbn [sort_insert head].
      * intros [= <-]. by apply comp_asym.
      * destruct (comp b' a); cbn [head]; intros [= <-]; [by apply Hhd|by apply comp_asym].
    + apply ordered_by_cons. split; [|done]. by intros ? [= <-].
Qed.

Lemma std_sort_ordered l : ordered_by comp (std_sort comp l).
Proof.
  unfold std_sort. induction l as [|a l IH]; cbn [foldr].
  - by intros [|?] ?? ?.
  - by apply sort_insert_ordered.
Qed.
End Sorting.

(** *** With the laws of the scalars *)

Section Laws.
Context {SL : ScalarLaws F}.
Add Ring scalar_ring_instance : (scalar_ring (F := F)).

Lemma fltb_asym (a b : F) : fltb a b = true → fltb b a = false.
Proof.
  intros Hab. destruct (fltb b a) eqn:Hba; [|done].
  by rewrite <- (fltb_irrefl a), (fltb_trans a b a Hab Hba).
Qed.

Lemma not_fltb_fge (a b : F) : fltb a b = false → fge a b.
Proof.
  intros Hab. unfold fge. destruct (fltb b a) eqn:Hba; [by left|].
  right. by apply fltb_connex.
Qed.

(** C1.  After the transparency sort of a frame with a camera, every
    transparent command lies at least as far along the camera's forward
    axis as its successor: [dot(A.center - cameraCenter, cameraForward)
    >= dot(B.center - cameraCenter, cameraForward)] for A right before B.
    The comparator puts A before B exactly when A's projection is the
    greater, and the sorted list is a rearrangement of the transparent
    commands collected. *)
Theorem transparent_back_to_front (this : @ForwardRenderer F) (world : World) gl i j owner :
  first_camera world = Some (i, j) →
  world !! i = Some owner →
  let cameraForward := camera_forward (getLocalToWorldMatrix owner) in
  let cameraCenter := camera_center (getLocalToWorldMatrix owner) in
  let depth := depth_along cameraForward cameraCenter in
  let sorted := transparentCommands (render this world gl).1.1 in
  (∀ n A B, sorted !! n = Some A → sorted !! S n = Some B → fge (depth A) (depth B))
  ∧ (∀ A B, transparent_before cameraForward cameraCenter A B = true
            ↔ fltb (depth B) (depth A) = true)
  ∧ sorted ≡ₚ collected_transparent world.
Proof.
  intros Hcam Hi cameraForward cameraCenter depth sorted.
  destruct (first_camera_Some _ _ _ Hcam) as (owner' & camera & Hi' & Hj).
  simplify_eq. subst sorted.
  rewrite (render_with_camera _ _ _ _ _ _ _ Hcam Hi Hj). cbn [fst snd sorted_frame with_lists transparentCommands].
  split_and!.
  - intros n A B HA HB. apply not_fltb_fge.
    apply (std_sort_ordered (transparent_before cameraForward cameraCenter)
             (λ a b, fltb_asym _ _) _ n A B HA HB).
  - done.
  - apply std_sort_Permutation.
Qed.

(** C3.  In a frame with a camera the draw calls added to the log are,
    in this order: one per opaque command, in collection order (the
    opaque list is the scene's commands in enumeration order with the
    transparent ones left out); the sky sphere if the sky material is set;
    one per transparent command, in the order of the sorted list, which
    is a rearrangement of the transparent commands collected in which no
    command goes before its predecessor under the frame's comparator; the
    three-vertex triangle if the post-processing material is set. *)
Theorem draw_order (this : @ForwardRenderer F) (world : World) gl i j owner camera :
  first_camera world = Some (i, j) →
  world !! i = Some owner →
  components owner !! j = Some (CameraC camera) →
  let this' := (render this world gl).1.1 in
  opaqueCommands this' = collected_opaque world
  ∧ transparentCommands this' ≡ₚ collected_transparent world
  ∧ ordered_by (transparent_before (camera_forward (getLocalToWorldMatrix owner))
                                   (camera_center (getLocalToWorldMatrix owner)))
               (transparentCommands this')
  ∧ draw_calls (log (render this world gl).2)
    = draw_calls (log gl)
      ++ ((λ k, Mesh_draw (mesh k)) <$> opaqueCommands this')
      ++ match skyMaterial this, skySphere this with
         | Some _, Some sphere => [Mesh_draw sphere]
         | _, _ => []
         end
      ++ ((λ k, Mesh_draw (mesh k)) <$> transparentCommands this')
      ++ match postprocessMaterial this with
         | Some _ => [glDrawArrays GL_TRIANGLES 0 3]
         | None => []
         end.
Proof.
  intros Hcam Hi Hj this'. subst this'.
  rewrite (render_with_camera _ _ _ _ _ _ _ Hcam Hi Hj). cbn [fst snd log].
  split_and!.
  - done.
  - apply std_sort_Permutation.
  - apply std_sort_ordered. intros a b. apply fltb_asym.
  - unfold frame_events. rewrite !draw_calls_app.
    rewrite (draw_calls_flat_map _ _ (draw_calls_draw_opaque _ _ _ _)).
    rewrite (draw_calls_flat_map _ _ (draw_calls_draw_transparent _ _ _ _)).
    cbn [sorted_frame with_lists postprocessMaterial skyMaterial opaqueCommands
         transparentCommands].
    f_equal.
    destruct (postprocessMaterial this), (skyMaterial this);
      rewrite ?draw_calls_draw_sky; cbn [sorted_frame with_lists skySphere];
      destruct (skySphere this); reflexivity.
Qed.

Lemma origin_is_translation (m : @mat4 F) :
  vec3_of_vec4 (mat4_mul_vec4 m (Vec4 f0 f0 f0 f1)) = translation_of m.
Proof.
  destruct m as [[a0 a1 a2 a3] [b0 b1 b2 b3] [c0 c1 c2 c3] [d0 d1 d2 d3]].
  lazy [translation_of vec3_of_vec4 mat4_mul_vec4 vec4_add vec4_scale
        col0 col1 col2 col3 v4x v4y v4z v4w].
  f_equal; ring.
Qed.

Lemma direction_ignores_translation (m : @mat4 F) (d : vec3) :
  vec3_of_vec4 (mat4_mul_vec4 m (vec4_of_vec3 d f0))
  = vec3_of_vec4
      (vec4_add (vec4_add (vec4_scale (col0 m) (v3x d)) (vec4_scale (col1 m) (v3y d)))
                (vec4_scale (col2 m) (v3z d))).
Proof.
  destruct m as [[a0 a1 a2 a3] [b0 b1 b2 b3] [c0 c1 c2 c3] [d0 d1 d2 d3]], d as [x y z].
  lazy [vec3_of_vec4 vec4_of_vec3 mat4_mul_vec4 vec4_add vec4_scale
        col0 col1 col2 col3 v4x v4y v4z v4w v3x v3y v3z].
  f_equal; ring.
Qed.

(** C6.  After a frame, every collected spot light's cached world
    position is the translation column of its owner's world transform,
    which is that transform applied to the point (0, 0, 0, 1). *)
Theorem spot_light_world_position (this : @ForwardRenderer F) (world : World) gl p :
  p ∈ spotLights (render this world gl).1.1 →
  ∃ owner l,
    (render this world gl).1.2 !! p.1 = Some owner
    ∧ components owner !! p.2 = Some (SpotLightC l)
    ∧ sl_worldPosition l = translation_of (getLocalToWorldMatrix owner)
    ∧ sl_worldPosition l
      = vec3_of_vec4 (mat4_mul_vec4 (getLocalToWorldMatrix owner) (Vec4 f0 f0 f0 f1)).
Proof.
  destruct (render_lights this world gl) as (_ & -> & _). rewrite render_scene.
  intros (i & e & Hi & Hp)%elem_of_collect. cbn in Hp.
  pose proof (spot_of_first _ _ _ Hp) as Hfirst.
  apply spot_of_elem in Hp as (-> & (l & Hl) & _).
  exists (visited e). eexists. rewrite list_lookup_fmap, Hi. split; [done|].
  rewrite visited_lookup, Hl. unfold written. rewrite bool_decide_true by done.
  cbn. split; [done|]. unfold world_origin. by rewrite origin_is_translation.
Qed.

(** C7.  After a frame, every collected cone light's cached world
    direction is [localToWorld * vec4(direction, 0)] for its owner's world
    transform and its own, unchanged, local direction: the combination of
    the first three columns of the transform, without the translation
    column.  Its cached world position is the owner's translation. *)
Theorem cone_light_world_direction (this : @ForwardRenderer F) (world : World) gl p :
  p ∈ coneLights (render this world gl).1.1 →
  ∃ owner l0 l,
    world !! p.1 = Some owner
    ∧ components owner !! p.2 = Some (ConeLightC l0)
    ∧ deref (render this world gl).1.2 p = Some (ConeLightC l)
    ∧ cl_direction l = cl_direction l0
    ∧ cl_worldDirection l
      = vec3_of_vec4 (mat4_mul_vec4 (getLocalToWorldMatrix owner)
                                    (vec4_of_vec3 (cl_direction l) f0))
    ∧ cl_worldDirection l
      = vec3_of_vec4
          (vec4_add
             (vec4_add (vec4_scale (col0 (getLocalToWorldMatrix owner)) (v3x (cl_direction l)))
                       (vec4_scale (col1 (getLocalToWorldMatrix owner)) (v3y (cl_direction l))))
             (vec4_scale (col2 (getLocalToWorldMatrix owner)) (v3z (cl_direction l))))
    ∧ cl_worldPosition l = translation_of (getLocalToWorldMatrix owner).
Proof.
  destruct (render_lights this world gl) as (_ & _ & ->). rewrite render_scene.
  intros (i & e & Hi & Hp)%elem_of_collect. cbn in Hp.
  apply cone_of_elem in Hp as (Hp1 & (l0 & Hl0)).
  exists e, l0. eexists. rewrite Hp1. split; [done|]. split; [done|].
  unfold deref. rewrite Hp1, list_lookup_fmap, Hi. cbn [fmap option_fmap option_map mbind option_bind].
  rewrite visited_lookup, Hl0. unfold written. 
  case_bool_decide; cbn; (split; [done|]); (split; [done|]); (split; [done|]);
    rewrite <- direction_ignores_translation; (split; [done|]);
    unfold world_origin; by rewrite origin_is_translation.
Qed.

(** C5.  The matrix bound to "Camera" for the sky draw sends every
    vector to one whose z equals its w, both being the w of the ordinary
    clip-space position [VP * p], while x and y are those of [VP * p]: the
    sky lands on the far plane whatever the sphere's own geometry. *)
Theorem sky_at_maximum_depth (this : @ForwardRenderer F) camera VP cameraCenter m p :
  let v := mat4_mul_vec4 (sky_Camera VP) p in
  ShaderProgram_set (shader m) "Camera" (UMat4 (sky_Camera VP))
    ∈ draw_sky this camera VP cameraCenter m
  ∧ v4z v = v4w v
  ∧ v4w v = v4w (mat4_mul_vec4 VP p)
  ∧ v4x v = v4x (mat4_mul_vec4 VP p)
  ∧ v4y v = v4y (mat4_mul_vec4 VP p).
Proof.
  intros v. split.
  { unfold draw_sky. rewrite elem_of_app, !elem_of_cons. auto 10. }
  subst v. destruct VP as [[a0 a1 a2 a3] [b0 b1 b2 b3] [c0 c1 c2 c3] [d0 d1 d2 d3]], p as [px py pz pw].
  lazy [sky_Camera mat4_mul mat4_combine mat4_mul_vec4 vec4_add vec4_scale
        alwaysBehindTransform col0 col1 col2 col3 v4x v4y v4z v4w].
  split_and!; [reflexivity|ring..].
Qed.
End Laws.

End Properties.

(** * Further properties: frames, [initialize] and [destroy] *)

Section Further.
Context {F : Type} {SF : Scalar F}.

(** *** Every frame *)

Lemma render_cases (this : @ForwardRenderer F) (world : World) gl :
  (first_camera world = None
   ∧ render this world gl = (collected this world, visited <$> world, gl))
  ∨ (∃ i j owner camera,
       first_camera world = Some (i, j)
       ∧ world !! i = Some owner
       ∧ components owner !! j = Some (CameraC camera)
       ∧ render this world gl
         = (sorted_frame this world owner, visited <$> world,
            {| next_name := next_name gl;
               log := log gl
                      ++ frame_events (sorted_frame this world owner) (visited <$> world)
                           camera (camera_center (getLocalToWorldMatrix owner)) |})).
Proof.
  destruct (first_camera world) as [[i j]|] eqn:Hcam.
  - right. destruct (first_camera_Some _ _ _ Hcam) as (owner & camera & Hi & Hj).
    exists i, j, owner, camera. split_and!; try done. by apply (render_with_camera _ _ _ i j).
  - left. split; [done|]. by apply render_without_camera.
Qed.

(** X1.  Whatever the scene, with a camera or without, [render] leaves
    every member of the renderer but the five per-frame lists as it was,
    keeps the number of entities, each entity's transform and the number
    of its components, and changes a component at most in the cached
    world position of a spot light or the cached world position and world
    direction of a cone light. *)
Theorem render_touches_only_light_caches (this : @ForwardRenderer F) (world : World) gl :
  let this' := (render this world gl).1.1 in
  let world' := (render this world gl).1.2 in
  resources this' = resources this
  ∧ length world' = length world
  ∧ ∀ i e, world !! i = Some e →
      ∃ e', world' !! i = Some e'
        ∧ getLocalToWorldMatrix e' = getLocalToWorldMatrix e
        ∧ length (components e') = length (components e)
        ∧ ∀ j c, components e !! j = Some c →
            ∃ c', components e' !! j = Some c' ∧ same_but_caches c c'.
Proof.
  cbv zeta. rewrite render_scene. split_and!.
  - destruct (render_cases this world gl) as [[_ ->]|(i & j & owner & camera & _ & _ & _ & ->)];
      reflexivity.
  - by rewrite length_fmap.
  - intros i e Hi. exists (visited e). rewrite list_lookup_fmap, Hi.
    split_and!; [done|done|apply visited_length|].
    intros j c Hc. exists (written e j c). rewrite visited_lookup, Hc.
    split; [done|apply written_same_but_caches].
Qed.

(** X2.  The lists a renderer holds from an earlier frame have no
    influence on a frame: [render] clears the five of them before it
    looks at the scene, so renderers that differ only in these lists
    render alike. *)
Theorem render_forgets_old_lists (this : @ForwardRenderer F) (world : World) gl
    opaque transparent' directional spot cone :
  render (with_lists this opaque transparent' directional spot cone) world gl
  = render this world gl.
Proof.
  destruct (first_camera world) as [[i j]|] eqn:Hcam.
  - destruct (first_camera_Some _ _ _ Hcam) as (owner & camera & Hi & Hj).
    by rewrite !(render_with_camera _ _ _ _ _ _ _ Hcam Hi Hj).
  - by rewrite !render_without_camera.
Qed.

(** *** A second frame over the same scene *)

Lemma getComponent_from_pointwise {T} (cast : @Component F → option T) n
    (cs cs' : list Component) (g : nat → Component → Component) :
  (∀ k, cs' !! k = g k <$> cs !! k) →
  (∀ k c, cast (g k c) = cast c) →
  getComponent_from cast n cs' = getComponent_from cast n cs.
Proof.
  intros Hcs Hg. revert n cs' g Hcs Hg.
  induction cs as [|c cs IH]; intros n cs' g Hcs Hg.
  - destruct cs' as [|c' cs']; [done|]. by specialize (Hcs 0).
  - destruct cs' as [|c' cs']; [by specialize (Hcs 0)|].
    pose proof (Hcs 0) as H0. cbn in H0. injection H0 as ->.
    cbn [getComponent_from]. rewrite Hg. destruct (cast c); [done|].
    apply (IH _ _ (λ k, g (S k))); [|done]. intros k. apply (Hcs (S k)).
Qed.

Lemma getAllComponents_from_pointwise {T} (cast : @Component F → option T) n
    (cs cs' : list Component) (g : nat → Component → Component) :
  (∀ k, cs' !! k = g k <$> cs !! k) →
  (∀ k c, cast (g k c) = None ↔ cast c = None) →
  (getAllComponents_from cast n cs').*1 = (getAllComponents_from cast n cs).*1
  ∧ fst <$> getComponent_from cast n cs' = fst <$> getComponent_from cast n cs.
Proof.
  intros Hcs Hg. revert n cs' g Hcs Hg.
  induction cs as [|c cs IH]; intros n cs' g Hcs Hg.
  - destruct cs' as [|c' cs']; [done|]. by specialize (Hcs 0).
  - destruct cs' as [|c' cs']; [by specialize (Hcs 0)|].
    pose proof (Hcs 0) as H0. cbn in H0. injection H0 as ->.
    destruct (IH (S n) cs' (λ k, g (S k)) (λ k, Hcs (S k)) (λ k, Hg (S k))) as [IH1 IH2].
    cbn [getAllComponents_from getComponent_from]. specialize (Hg 0 c).
    destruct (cast (g 0 c)) eqn:H1, (cast c) eqn:H2; cbn; rewrite ?IH1; try done.
    + destruct Hg as [_ Hg]. by specialize (Hg eq_refl).
    + destruct Hg as [Hg _]. by specialize (Hg eq_refl).
Qed.

Lemma written_cast {T} (cast : @Component F → option T) (e : @Entity F) k c :
  (∀ l, cast (SpotLightC l) = None) → (∀ l, cast (ConeLightC l) = None) →
  cast (written e k c) = cast c.
Proof.
  intros Hs Hc. unfold written. case_bool_decide; destruct c; cbn; by rewrite ?Hs, ?Hc.
Qed.

Lemma visited_getComponent {T} (cast : @Component F → option T) (e : @Entity F) :
  (∀ l, cast (SpotLightC l) = None) → (∀ l, cast (ConeLightC l) = None) →
  getComponent cast (visited e) = getComponent cast e.
Proof.
  intros Hs Hc. unfold getComponent.
  apply (getComponent_from_pointwise cast 0 _ _ (written e)).
  - intros k. apply visited_lookup.
  - intros k c. by apply written_cast.
Qed.

Lemma visited_places {T} (cast : @Component F → option T) (e : @Entity F) :
  (∀ k c, cast (written e k c) = None ↔ cast c = None) →
  (getAllComponents cast (visited e)).*1 = (getAllComponents cast e).*1
  ∧ fst <$> getComponent cast (visited e) = fst <$> getComponent cast e.
Proof.
  intros Hk. unfold getAllComponents, getComponent.
  apply (getAllComponents_from_pointwise cast 0 _ _ (written e)); [|done].
  intros k. apply visited_lookup.
Qed.

Lemma written_keeps_spot (e : @Entity F) k c :
  as_SpotLight (written e k c) = None ↔ as_SpotLight c = None.
Proof. unfold written. case_bool_decide; by destruct c. Qed.
Lemma written_keeps_cone (e : @Entity F) k c :
  as_ConeLight (written e k c) = None ↔ as_ConeLight c = None.
Proof. unfold written. case_bool_decide; by destruct c. Qed.

Lemma visited_origin (e : @Entity F) : world_origin (visited e) = world_origin e.
Proof. done. Qed.

Lemma Entity_eq (e1 e2 : @Entity F) :
  getLocalToWorldMatrix e1 = getLocalToWorldMatrix e2 →
  components e1 = components e2 → e1 = e2.
Proof. destruct e1, e2; cbn; congruence. Qed.

Lemma visited_visited (e : @Entity F) : visited (visited e) = visited e.
Proof.
  assert (Hcs : components (visited (visited e)) = components (visited e)).
  { apply list_eq; intros k. rewrite visited_lookup, (visited_lookup e).
    destruct (components e !! k) as [c|]; [cbn|done]. f_equal.
    unfold written at 1. rewrite visited_origin.
    destruct (visited_places as_SpotLight e (written_keeps_spot e)) as [_ ->].
    change (getLocalToWorldMatrix (visited e)) with (getLocalToWorldMatrix e).
    unfold written. case_bool_decide; by destruct c. }
  apply Entity_eq; [reflexivity|exact Hcs].
Qed.

Lemma visited_command_of (e : @Entity F) : command_of (visited e) = command_of e.
Proof. unfold command_of. rewrite visited_getComponent by done. reflexivity. Qed.

Lemma visited_directional_of i (e : @Entity F) :
  directional_of i (visited e) = directional_of i e.
Proof. unfold directional_of. rewrite visited_getComponent by done. reflexivity. Qed.

Lemma visited_spot_of i (e : @Entity F) : spot_of i (visited e) = spot_of i e.
Proof.
  unfold spot_of.
  destruct (visited_places as_SpotLight e (written_keeps_spot e)) as [_ H].
  by destruct (getComponent as_SpotLight (visited e)) as [[? ?]|],
              (getComponent as_SpotLight e) as [[? ?]|]; simplify_eq/=.
Qed.

Lemma visited_cone_of i (e : @Entity F) : cone_of i (visited e) = cone_of i e.
Proof.
  unfold cone_of.
  destruct (visited_places as_ConeLight e (written_keeps_cone e)) as [H _].
  change (λ x : nat * ConeLight, (i, x.1)) with ((λ j : nat, (i, j)) ∘ (fst : nat * @ConeLight F → nat)).
  by rewrite !list_fmap_compose, H.
Qed.

Lemma collect_visited {X} (f : nat → @Entity F → list X) i es :
  (∀ i e, f i (visited e) = f i e) →
  collect f i (visited <$> es) = collect f i es.
Proof.
  intros Hf. revert i. induction es as [|e es IH]; intros i; [done|].
  cbn [fmap list_fmap collect]. by rewrite Hf, <- IH.
Qed.

Lemma collected_commands_visited (world : list (@Entity F)) :
  collected_commands (visited <$> world) = collected_commands world.
Proof.
  unfold collected_commands. induction world as [|e es IH]; [done|].
  cbn [fmap list_fmap omap list_omap]. by rewrite visited_command_of, <- IH.
Qed.

Lemma first_camera_from_visited i (es : list (@Entity F)) :
  first_camera_from i (visited <$> es) = first_camera_from i es.
Proof.
  revert i. induction es as [|e es IH]; intros i; [done|].
  cbn [fmap list_fmap first_camera_from]. rewrite visited_getComponent by done.
  by rewrite <- IH.
Qed.

Lemma visited_world_visited (world : list (@Entity F)) :
  visited <$> (visited <$> world) = visited <$> world.
Proof.
  rewrite <- list_fmap_compose. apply list_fmap_ext. intros _ e _. apply visited_visited.
Qed.

Lemma collected_visited (this : @ForwardRenderer F) (world : World) this0 :
  resources this0 = resources this →
  collected this0 (visited <$> world) = collected this world.
Proof.
  intros Hres. unfold collected, collected_opaque, collected_transparent.
  rewrite collected_commands_visited.
  rewrite (collect_visited directional_of), (collect_visited spot_of),
    (collect_visited cone_of)
    by auto using visited_directional_of, visited_spot_of, visited_cone_of.
  destruct this0, this. cbn in Hres. by simplify_eq.
Qed.

(** X3.  Rendering the scene that a frame has left behind repeats the
    frame: the renderer and the scene come out as the first frame left
    them (the light caches written by traversal are written again with
    the same values) and the same events are logged once more. *)
Theorem render_repeatable (this : @ForwardRenderer F) (world : World) gl :
  let this' := (render this world gl).1.1 in
  let world' := (render this world gl).1.2 in
  let gl' := (render this world gl).2 in
  ∃ events,
    log gl' = log gl ++ events
    ∧ render this' world' gl'
      = (this', world', {| next_name := next_name gl'; log := log gl' ++ events |}).
Proof.
  cbv zeta.
  destruct (render_cases this world gl) as [[Hcam ->]|(i & j & owner & camera & Hcam & Hi & Hj & ->)];
    cbn [fst snd].
  - exists []. rewrite !app_nil_r. split; [done|].
    rewrite render_without_camera
      by (unfold first_camera; by rewrite first_camera_from_visited).
    rewrite visited_world_visited, (collected_visited this) by done. by destruct gl.
  - eexists. split; [reflexivity|].
    rewrite (render_with_camera _ _ _ i j (visited owner) camera).
    + rewrite visited_world_visited. cbn [next_name log].
      assert (sorted_frame (sorted_frame this world owner) (visited <$> world) (visited owner)
              = sorted_frame this world owner) as ->; [|done].
      unfold sorted_frame, collected_opaque, collected_transparent.
      rewrite collected_commands_visited.
      rewrite (collect_visited directional_of), (collect_visited spot_of),
        (collect_visited cone_of)
        by auto using visited_directional_of, visited_spot_of, visited_cone_of.
      done.
    + unfold first_camera. by rewrite first_camera_from_visited.
    + by rewrite list_lookup_fmap, Hi.
    + rewrite visited_lookup, Hj. unfold written. by case_bool_decide.
Qed.

(** *** The two buckets *)

Lemma filter_partition {A} (P : A → bool) (l : list A) :
  List.filter (λ x, negb (P x)) l ++ List.filter P l ≡ₚ l.
Proof.
  induction l as [|x l IH]; [done|]. cbn. destruct (P x); cbn.
  - rewrite <- Permutation_middle. by constructor.
  - by constructor.
Qed.

Lemma collected_commands_length (world : list (@Entity F)) :
  length (collected_commands world) = length (filter has_MeshRenderer world).
Proof.
  unfold collected_commands. induction world as [|e es IH]; [done|].
  cbn [omap list_omap]. destruct (getComponent as_MeshRenderer e) as [[? ?]|] eqn:Hg.
  - rewrite filter_cons_True by (unfold has_MeshRenderer; by rewrite Hg).
    unfold command_of at 1. rewrite Hg. cbn. by rewrite IH.
  - rewrite filter_cons_False by (unfold has_MeshRenderer; rewrite Hg; by intros [? ?]).
    unfold command_of at 1. by rewrite Hg.
Qed.

Lemma render_commands (this : @ForwardRenderer F) (world : World) gl :
  commands (render this world gl).1.1 ≡ₚ collected_commands world
  ∧ opaqueCommands (render this world gl).1.1 = collected_opaque world
  ∧ transparentCommands (render this world gl).1.1 ≡ₚ collected_transparent world.
Proof.
  unfold commands.
  destruct (render_cases this world gl)
    as [[_ ->]|(i & j & owner & camera & _ & _ & _ & ->)]; cbn [fst snd];
    cbn [collected sorted_frame with_lists opaqueCommands transparentCommands];
    rewrite ?std_sort_Permutation; (split; [apply filter_partition|done]).
Qed.

(** X4.  A frame builds one command for each entity that carries a mesh
    renderer and for no other, and puts it in exactly one bucket: the two
    buckets together are a permutation of the scene's commands, the
    opaque bucket holds only commands whose material is not transparent
    and the transparent bucket only commands whose material is. *)
Theorem commands_in_one_bucket (this : @ForwardRenderer F) (world : World) gl :
  let this' := (render this world gl).1.1 in
  commands this' ≡ₚ collected_commands world
  ∧ length (commands this') = length (filter has_MeshRenderer world)
  ∧ (∀ k, k ∈ opaqueCommands this' → transparent (material k) = false)
  ∧ (∀ k, k ∈ transparentCommands this' → transparent (material k) = true).
Proof.
  cbv zeta. destruct (render_commands this world gl) as (Hperm & Hopaque & Htransparent).
  split_and!.
  - done.
  - by rewrite Hperm, collected_commands_length.
  - intros k. rewrite Hopaque. unfold collected_opaque.
    rewrite list_elem_of_In, filter_In. intros [_ Hk]. unfold is_transparent in Hk.
    by destruct (transparent (material k)).
  - intros k. rewrite Htransparent. unfold collected_transparent.
    rewrite list_elem_of_In, filter_In. by intros [_ Hk].
Qed.

(** *** The camera of the frame *)

Lemma first_camera_from_first k (es : list (@Entity F)) i j owner camera :
  es !! i = Some owner →
  components owner !! j = Some (CameraC camera) →
  (∀ i' e c, i' < i → es !! i' = Some e → c ∈ components e → as_Camera c = None) →
  (∀ j' c, j' < j → components owner !! j' = Some c → as_Camera c = None) →
  first_camera_from k es = Some (k + i, j).
Proof.
  intros Hi Hj Hbefore Hfirst. revert k i Hi Hbefore.
  induction es as [|e es IH]; intros k i Hi Hbefore; [done|].
  cbn [first_camera_from]. destruct i as [|i]; simplify_eq/=.
  - destruct (getComponent as_Camera owner) as [[j' c]|] eqn:Hc.
    + apply getComponent_from_Some in Hc as (j0 & -> & (c0 & Hc0 & Hcast) & Hmin).
      rewrite Nat.add_0_r. do 2 f_equal. cbn.
      destruct (Nat.lt_trichotomy j0 j) as [Hlt|[->|Hlt]]; [|done|].
      * by rewrite (Hfirst _ _ Hlt Hc0) in Hcast.
      * by specialize (Hmin _ _ Hlt Hj).
    + eapply getComponent_from_None in Hc; [|by eapply list_elem_of_lookup_2]. done.
  - assert (getComponent as_Camera e = None) as ->.
    { apply getComponent_from_None. intros c Hc. apply (Hbefore 0 e c); [lia|done|done]. }
    rewrite (IH (S k) i Hi); [by rewrite Nat.add_succ_r|].
    intros i' e' c Hlt He' Hc. apply (Hbefore (S i') e' c); [lia|done|done].
Qed.

(** X5.  The camera of a frame is the first one in enumeration order:
    if the entity in place [i] carries a camera as its component [j], no
    entity before it carries a camera and none of its components before
    [j] is one, then the frame is drawn with that camera, seen from the
    translation of that entity. *)
Theorem first_camera_is_used (this : @ForwardRenderer F) (world : World) gl i j
    owner camera :
  world !! i = Some owner →
  components owner !! j = Some (CameraC camera) →
  (∀ i' e c, i' < i → world !! i' = Some e → c ∈ components e → as_Camera c = None) →
  (∀ j' c, j' < j → components owner !! j' = Some c → as_Camera c = None) →
  let this' := (render this world gl).1.1 in
  let world' := (render this world gl).1.2 in
  log (render this world gl).2
  = log gl ++ frame_events this' world' camera (camera_center (getLocalToWorldMatrix owner)).
Proof.
  intros Hi Hj Hbefore Hfirst.
  pose proof (first_camera_from_first 0 world i j owner camera Hi Hj Hbefore Hfirst) as Hcam.
  cbv zeta. by rewrite (render_with_camera _ _ _ i j owner camera Hcam Hi Hj).
Qed.

(** *** Where the frame is drawn *)

Lemma targets_quiet bound (events rest : list (@gl_event F)) :
  Forall (λ e, is_quiet e = true) events →
  targets bound (events ++ rest) = targets bound rest.
Proof.
  induction 1 as [|e events He _ IH]; [done|].
  cbn [app targets]. by destruct e; try done; destruct target.
Qed.

Lemma bind_each_quiet (bind : nat → ptr → list (@gl_event F)) i lights :
  (∀ i p, Forall (λ e, is_quiet e = true) (bind i p)) →
  Forall (λ e, is_quiet e = true) (bind_each bind i lights).
Proof.
  intros Hbind. revert i. induction lights as [|p rest IH]; intros i; cbn [bind_each].
  - constructor.
  - apply Forall_app. auto.
Qed.

Lemma bind_lights_quiet (this : @ForwardRenderer F) world sh :
  Forall (λ e, is_quiet e = true) (bind_lights this world sh).
Proof.
  unfold bind_lights. repeat apply Forall_app_2; try (by repeat constructor);
    apply bind_each_quiet; intros i p;
    unfold bind_DirectionalLight, bind_SpotLight, bind_ConeLight;
    destruct (deref world p) as [[]|]; by repeat constructor.
Qed.

Lemma targets_draw_opaque bound (this : @ForwardRenderer F) world VP cameraCenter k rest :
  targets bound (draw_opaque this world VP cameraCenter k ++ rest)
  = (bound, Mesh_draw (mesh k)) :: targets bound rest.
Proof.
  unfold draw_opaque. rewrite !(assoc_L (++)), <- (assoc_L (++) _ [Mesh_draw _] rest).
  rewrite targets_quiet; [done|].
  apply Forall_app_2; [by repeat constructor|].
  destruct (is_DefaultMaterial (material k)); [|by repeat constructor].
  apply Forall_app_2; [by repeat constructor|apply bind_lights_quiet].
Qed.

Lemma targets_draw_transparent bound (this : @ForwardRenderer F) world VP cameraCenter k rest :
  targets bound (draw_transparent this world VP cameraCenter k ++ rest)
  = (bound, Mesh_draw (mesh k)) :: targets bound rest.
Proof.
  unfold draw_transparent. rewrite !(assoc_L (++)), <- (assoc_L (++) _ [Mesh_draw _] rest).
  rewrite targets_quiet; [done|].
  apply Forall_app_2; [by repeat constructor|].
  destruct (is_DefaultMaterial (material k)); [|by repeat constructor].
  apply Forall_app_2; [by repeat constructor|apply bind_lights_quiet].
Qed.

Lemma targets_flat_map bound (f : @RenderCommand F → list (@gl_event F)) ks rest :
  (∀ k rest, targets bound (f k ++ rest) = (bound, Mesh_draw (mesh k)) :: targets bound rest) →
  targets bound (flat_map f ks ++ rest)
  = ((λ k, (bound, Mesh_draw (mesh k))) <$> ks) ++ targets bound rest.
Proof.
  intros Hf. induction ks as [|k ks IH]; [done|].
  cbn [flat_map fmap list_fmap]. by rewrite <- (assoc_L (++)), Hf, IH.
Qed.

Lemma targets_draw_sky bound (this : @ForwardRenderer F) camera VP cameraCenter m rest :
  targets bound (draw_sky this camera VP cameraCenter m ++ rest)
  = match skySphere this with
    | Some sphere => [(bound, Mesh_draw sphere)]
    | None => []
    end ++ targets bound rest.
Proof.
  unfold draw_sky. rewrite <- (assoc_L (++)).
  rewrite targets_quiet by by repeat constructor. by destruct (skySphere this).
Qed.

Lemma targets_frame_events (this : @ForwardRenderer F) (world : World) camera center bound :
  let offscreen :=
    match postprocessMaterial this with
    | Some _ => postprocessFrameBuffer this
    | None => bound
    end in
  targets bound (frame_events this world camera center)
  = [(offscreen, glClear [GL_COLOR_BUFFER_BIT; GL_DEPTH_BUFFER_BIT])]
    ++ ((λ k, (offscreen, Mesh_draw (mesh k))) <$> opaqueCommands this)
    ++ match skyMaterial this, skySphere this with
       | Some _, Some sphere => [(offscreen, Mesh_draw sphere)]
       | _, _ => []
       end
    ++ ((λ k, (offscreen, Mesh_draw (mesh k))) <$> transparentCommands this)
    ++ match postprocessMaterial this with
       | Some _ => [(0, glDrawArrays GL_TRIANGLES 0 3)]
       | None => []
       end.
Proof.
  cbv zeta. unfold frame_events.
  rewrite targets_quiet by by repeat constructor.
  set (offscreen := match postprocessMaterial this with
                    | Some _ => postprocessFrameBuffer this
                    | None => bound
                    end).
  assert (Hstart : ∀ rest : list (@gl_event F),
            targets bound
              (match postprocessMaterial this with
               | Some _ => [glBindFramebuffer GL_FRAMEBUFFER (postprocessFrameBuffer this)]
               | None => []
               end ++ rest) = targets offscreen rest).
  { intros rest. subst offscreen. by destruct (postprocessMaterial this). }
  rewrite Hstart. cbn [app targets is_draw is_clear orb].
  rewrite (targets_flat_map _ _ _ _ (targets_draw_opaque offscreen _ _ _ _)).
  assert (Hsky : ∀ rest : list (@gl_event F),
            targets offscreen
              (match skyMaterial this with
               | Some m => draw_sky this camera
                             (mat4_mul (getProjectionMatrix camera (windowSize this))
                                       (getViewMatrix camera))
                             center m
               | None => []
               end ++ rest)
            = match skyMaterial this, skySphere this with
              | Some _, Some sphere => [(offscreen, Mesh_draw sphere)]
              | _, _ => []
              end ++ targets offscreen rest).
  { intros rest. destruct (skyMaterial this); [|done]. by rewrite targets_draw_sky. }
  rewrite Hsky.
  rewrite (targets_flat_map _ _ _ _ (targets_draw_transparent offscreen _ _ _ _)).
  do 4 f_equal. by destruct (postprocessMaterial this).
Qed.

(** X6.  Where a frame with a camera draws.  With a post-processing
    material the clear, every mesh and the sky go to the renderer's
    framebuffer and only the final triangle goes to framebuffer 0;
    without one, everything goes to the framebuffer that was bound when
    [render] was called, which [render] then never rebinds. *)
Theorem frame_targets (this : @ForwardRenderer F) (world : World) gl i j owner camera bound :
  first_camera world = Some (i, j) →
  world !! i = Some owner →
  components owner !! j = Some (CameraC camera) →
  let this' := (render this world gl).1.1 in
  let offscreen :=
    match postprocessMaterial this with
    | Some _ => postprocessFrameBuffer this
    | None => bound
    end in
  ∃ events,
    log (render this world gl).2 = log gl ++ events
    ∧ targets bound events
      = [(offscreen, glClear [GL_COLOR_BUFFER_BIT; GL_DEPTH_BUFFER_BIT])]
        ++ ((λ k, (offscreen, Mesh_draw (mesh k))) <$> opaqueCommands this')
        ++ match skyMaterial this, skySphere this with
           | Some _, Some sphere => [(offscreen, Mesh_draw sphere)]
           | _, _ => []
           end
        ++ ((λ k, (offscreen, Mesh_draw (mesh k))) <$> transparentCommands this')
        ++ match postprocessMaterial this with
           | Some _ => [(0, glDrawArrays GL_TRIANGLES 0 3)]
           | None => []
           end.
Proof.
  intros Hcam Hi Hj. cbv zeta.
  rewrite (render_with_camera _ _ _ _ _ _ _ Hcam Hi Hj). cbn [fst snd log].
  eexists. split; [reflexivity|].
  exact (targets_frame_events (sorted_frame this world owner) _ camera _ bound).
Qed.

(** *** A frame creates nothing *)

Lemma created_app (events rest : list (@gl_event F)) :
  created (events ++ rest) = created events ++ created rest.
Proof. apply omap_app. Qed.

Lemma created_none (events : list (@gl_event F)) :
  Forall (λ e, created [e] = []) events → created events = [].
Proof.
  induction 1 as [|e events He _ IH]; [done|].
  change (e :: events) with ([e] ++ events). by rewrite created_app, He, IH.
Qed.

Lemma bind_each_creates_nothing (bind : nat → ptr → list (@gl_event F)) i lights :
  (∀ i p, Forall (λ e, created [e] = []) (bind i p)) →
  Forall (λ e, created [e] = []) (bind_each bind i lights).
Proof.
  intros Hbind. revert i. induction lights as [|p rest IH]; intros i; cbn [bind_each].
  - constructor.
  - apply Forall_app. auto.
Qed.

Lemma bind_lights_creates_nothing (this : @ForwardRenderer F) world sh :
  Forall (λ e, created [e] = []) (bind_lights this world sh).
Proof.
  unfold bind_lights. repeat apply Forall_app_2; try (by repeat constructor);
    apply bind_each_creates_nothing; intros i p;
    unfold bind_DirectionalLight, bind_SpotLight, bind_ConeLight;
    destruct (deref world p) as [[]|]; by repeat constructor.
Qed.

Lemma flat_map_creates_nothing (f : @RenderCommand F → list (@gl_event F)) ks :
  (∀ k, Forall (λ e, created [e] = []) (f k)) →
  Forall (λ e, created [e] = []) (flat_map f ks).
Proof.
  intros Hf. induction ks as [|k ks IH]; [constructor|].
  cbn [flat_map]. apply Forall_app_2; auto.
Qed.

Lemma frame_events_create_nothing (this : @ForwardRenderer F) (world : World) camera center :
  Forall (λ e, created [e] = []) (frame_events this world camera center).
Proof.
  unfold frame_events. repeat apply Forall_app_2; try (by repeat constructor).
  - destruct (postprocessMaterial this); by repeat constructor.
  - apply flat_map_creates_nothing. intros k. unfold draw_opaque.
    repeat apply Forall_app_2; try (by repeat constructor).
    destruct (is_DefaultMaterial (material k)); [|by repeat constructor].
    apply Forall_app_2; [by repeat constructor|apply bind_lights_creates_nothing].
  - destruct (skyMaterial this); [|constructor]. unfold draw_sky.
    repeat apply Forall_app_2; try (by repeat constructor).
    destruct (skySphere this); by repeat constructor.
  - apply flat_map_creates_nothing. intros k. unfold draw_transparent.
    repeat apply Forall_app_2; try (by repeat constructor).
    destruct (is_DefaultMaterial (material k)); [|by repeat constructor].
    apply Forall_app_2; [by repeat constructor|apply bind_lights_creates_nothing].
  - destruct (postprocessMaterial this); by repeat constructor.
Qed.

(** X18.  [render] creates nothing: no event of a frame creates a mesh, a
    shader, a texture, a sampler, a framebuffer or a vertex array, and no
    object name is handed out. *)
Theorem render_creates_nothing (this : @ForwardRenderer F) (world : World) gl :
  ∃ events,
    log (render this world gl).2 = log gl ++ events
    ∧ created events = []
    ∧ next_name (render this world gl).2 = next_name gl.
Proof.
  destruct (render_cases this world gl)
    as [[_ ->]|(i & j & owner & camera & _ & _ & _ & ->)]; cbn [snd log next_name].
  - exists []. by rewrite app_nil_r.
  - eexists. split; [reflexivity|]. split; [|done].
    apply created_none, frame_events_create_nothing.
Qed.

(** *** [initialize] step by step, and [destroy] *)

Lemma initialize_steps constructed windowSize (config : gmap string (@json F)) this gl light :
  value vec3_from_json config "areaLight" (Vec3 f1 f1 f1) (set_windowSize windowSize this, gl)
  = ((set_windowSize windowSize this, gl), inr light) →
  initialize constructed windowSize config (this, gl)
  = match (if contains config "sky" then initialize_sky config else mret ())
            (set_areaLight light (set_windowSize windowSize this), gl) with
    | (s, inr _) =>
        (if contains config "postprocess"
         then initialize_postprocess constructed windowSize config else mret ()) s
    | (s, inl e) => (s, inl e)
    end.
Proof.
  intros Hlight. unfold initialize. lazy [mbind M_bind assign fst snd]. rewrite Hlight.
  lazy [mbind M_bind assign fst snd].
  by destruct ((if contains config "sky" then initialize_sky config else mret ())
                 (set_areaLight light (set_windowSize windowSize this), gl)) as [s [e|[]]].
Qed.

Lemma initialize_sky_throws (config : gmap string (@json F)) this gl j e :
  config !! "sky" = Some j →
  string_from_json j = inl e →
  initialize_sky config (this, gl)
  = ((set_skySphere (Some (1 + next_name gl)) this,
      {| next_name := 2 + next_name gl;
         log := log gl
                ++ [mesh_utils_sphere (16, 16)%Z (1 + next_name gl);
                    new_ShaderProgram (2 + next_name gl);
                    ShaderProgram_attach (2 + next_name gl)
                      "assets/shaders/default.vert" GL_VERTEX_SHADER;
                    ShaderProgram_attach (2 + next_name gl)
                      "assets/shaders/default.frag" GL_FRAGMENT_SHADER;
                    ShaderProgram_link (2 + next_name gl)] |}),
     inl e).
Proof.
  intros Hsky He. unfold initialize_sky, value. rewrite Hsky, He.
  lazy [mbind M_bind mret M_ret create call assign throw fst snd next_name log].
  rewrite <- ?app_assoc. reflexivity.
Qed.

Lemma initialize_postprocess_throws constructed windowSize (config : gmap string (@json F))
    this gl j e :
  config !! "postprocess" = Some j →
  string_from_json j = inl e →
  initialize_postprocess constructed windowSize config (this, gl)
  = ((set_postProcessVertexArray (4 + next_name gl)
        (set_depthTarget (Some (3 + next_name gl))
           (set_colorTarget (Some (2 + next_name gl))
              (set_postprocessFrameBuffer (1 + next_name gl) this))),
      {| next_name := 6 + next_name gl;
         log := log gl ++ take 15 (postprocess_events (next_name gl) windowSize "") |}),
     inl e).
Proof.
  intros Hpost He. unfold initialize_postprocess, value. rewrite Hpost, He.
  lazy [mbind M_bind mret M_ret create call assign throw fst snd next_name log].
  rewrite <- ?app_assoc. reflexivity.
Qed.

Lemma value_areaLight_read (config : gmap string (@json F)) s :
  areaLight_readable config →
  ∃ light,
    value vec3_from_json config "areaLight" (Vec3 f1 f1 f1) s = (s, inr light)
    ∧ (config !! "areaLight" = None → light = Vec3 f1 f1 f1)
    ∧ (∀ j, config !! "areaLight" = Some j → vec3_from_json j = inr light).
Proof.
  intros Hr. unfold value. destruct (config !! "areaLight") as [j|] eqn:Hj.
  - destruct (Hr j Hj) as [v Hv]. rewrite Hv. exists v. split_and!; [done|done|].
    by intros ? [= <-].
  - eexists. split_and!; done.
Qed.

(** X11.  With neither "sky" nor "postprocess" in the configuration,
    [initialize] calls nothing and creates nothing: it assigns the window
    size and the area light and no other member.  The area light is
    [(1, 1, 1)] when its key is missing and the configured colour
    otherwise. *)
Theorem initialize_without_features constructed windowSize (config : gmap string (@json F))
    this gl :
  areaLight_readable config →
  config !! "sky" = None →
  config !! "postprocess" = None →
  ∃ light,
    initialize constructed windowSize config (this, gl)
    = ((set_areaLight light (set_windowSize windowSize this), gl), inr ())
    ∧ (config !! "areaLight" = None → light = Vec3 f1 f1 f1)
    ∧ (∀ j, config !! "areaLight" = Some j → vec3_from_json j = inr light).
Proof.
  intros Harea Hsky Hpost.
  destruct (value_areaLight_read config (set_windowSize windowSize this, gl) Harea)
    as (light & Hlight & Hdefault & Hread).
  exists light. split_and!; [|done|done].
  rewrite (initialize_steps _ _ _ _ _ light Hlight).
  by rewrite (contains_None _ _ Hsky), (contains_None _ _ Hpost).
Qed.

(** X12.  When "areaLight" is present and does not read as a colour,
    [initialize] throws the error of the reading before any call is made:
    only the window size has been assigned, whatever else is configured. *)
Theorem initialize_areaLight_type_error constructed windowSize
    (config : gmap string (@json F)) this gl j e :
  config !! "areaLight" = Some j →
  vec3_from_json j = inl e →
  initialize constructed windowSize config (this, gl)
  = ((set_windowSize windowSize this, gl), inl e).
Proof.
  intros Hj He. unfold initialize, value. rewrite Hj, He.
  lazy [mbind M_bind assign throw fst snd]. reflexivity.
Qed.

(** X13.  When "sky" is present and is not a string, [initialize] throws
    after it has created the sphere and the sky shader and before it sets
    the sky material; the post-processing branch is not reached.  On a
    renderer that was uninitialized [destroy] then releases nothing: the
    sphere, though held in [skySphere], and the shader are never deleted. *)
Theorem initialize_sky_type_error_leaks constructed windowSize
    (config : gmap string (@json F)) this gl j e :
  areaLight_readable config →
  uninitialized this →
  config !! "sky" = Some j →
  string_from_json j = inl e →
  ∃ this' gl' events,
    initialize constructed windowSize config (this, gl) = ((this', gl'), inl e)
    ∧ log gl' = log gl ++ events
    ∧ created events = [a_mesh (1 + next_name gl); a_shader (2 + next_name gl)]
    ∧ skySphere this' = Some (1 + next_name gl)
    ∧ skyMaterial this' = None
    ∧ postprocessMaterial this' = None
    ∧ destroy this' = [].
Proof.
  intros Harea [Hs Hp] Hsky He.
  destruct (value_areaLight_read config (set_windowSize windowSize this, gl) Harea)
    as (light & Hlight & _).
  rewrite (initialize_steps _ _ _ _ _ light Hlight).
  rewrite (contains_Some _ _ _ Hsky), (initialize_sky_throws _ _ _ _ _ Hsky He).
  do 3 eexists. split; [reflexivity|]. cbn [log]. split; [reflexivity|].
  destruct this. cbn in Hs, Hp. subst. done.
Qed.

(** X14.  When "postprocess" is present and is not a string (and no sky
    is configured), [initialize] throws after it has created the
    framebuffer, the two textures, the vertex array, the sampler and the
    shader, and before it sets the post-processing material.  On a
    renderer that was uninitialized [destroy] then releases nothing, the
    framebuffer and the textures held in the members included. *)
Theorem initialize_postprocess_type_error_leaks constructed windowSize
    (config : gmap string (@json F)) this gl j e :
  areaLight_readable config →
  uninitialized this →
  config !! "sky" = None →
  config !! "postprocess" = Some j →
  string_from_json j = inl e →
  ∃ this' gl' events,
    initialize constructed windowSize config (this, gl) = ((this', gl'), inl e)
    ∧ log gl' = log gl ++ events
    ∧ created events
      = [a_framebuffer (1 + next_name gl); a_texture (2 + next_name gl);
         a_texture (3 + next_name gl); a_vertex_array (4 + next_name gl);
         a_sampler (5 + next_name gl); a_shader (6 + next_name gl)]
    ∧ postprocessFrameBuffer this' = 1 + next_name gl
    ∧ colorTarget this' = Some (2 + next_name gl)
    ∧ depthTarget this' = Some (3 + next_name gl)
    ∧ postprocessMaterial this' = None
    ∧ destroy this' = [].
Proof.
  intros Harea [Hs Hp] Hsky Hpost He.
  destruct (value_areaLight_read config (set_windowSize windowSize this, gl) Harea)
    as (light & Hlight & _).
  rewrite (initialize_steps _ _ _ _ _ light Hlight).
  rewrite (contains_None _ _ Hsky), (contains_Some _ _ _ Hpost).
  cbn [mret M_ret].
  rewrite (initialize_postprocess_throws _ _ _ _ _ _ _ Hpost He).
  do 3 eexists. split; [reflexivity|]. cbn [log]. split; [reflexivity|].
  destruct this. cbn in Hs, Hp. subst. done.
Qed.

Ltac distinct_objects :=
  repeat (apply NoDup_cons; split;
          [rewrite ?elem_of_cons, elem_of_nil; intros Hin;
           repeat (destruct Hin as [Hin|Hin]); try discriminate Hin;
           try (injection Hin; lia); try done
          |]);
  apply NoDup_nil; exact I.

Lemma initialize_succeeds constructed windowSize (config : gmap string (@json F)) this gl :
  areaLight_readable config →
  absent_or_string config "sky" →
  absent_or_string config "postprocess" →
  ∃ light this1 n1 sky post,
    initialize constructed windowSize config (this, gl)
    = ((match config !! "postprocess" with
        | Some _ =>
            set_postprocessMaterial
              (Some (postprocess_material (constructed TexturedMaterial) (n1)))
              (set_postProcessVertexArray (4 + n1)
                 (set_depthTarget (Some (3 + n1))
                    (set_colorTarget (Some (2 + n1))
                       (set_postprocessFrameBuffer (1 + n1) this1))))
        | None => this1
        end,
        {| next_name := match config !! "postprocess" with
                        | Some _ => 6 + n1
                        | None => n1
                        end;
           log := log gl ++ sky ++ post |}), inr ())
    ∧ this1 = match config !! "sky" with
              | Some _ =>
                  set_skyMaterial (Some (sky_material (next_name gl)))
                    (set_skySphere (Some (1 + next_name gl))
                       (set_areaLight light (set_windowSize windowSize this)))
              | None => set_areaLight light (set_windowSize windowSize this)
              end
    ∧ n1 = match config !! "sky" with
                      | Some _ => 4 + next_name gl
                      | None => next_name gl
                      end
    ∧ sky = match config !! "sky" with
            | Some (JString file) => sky_events (next_name gl) file
            | _ => []
            end
    ∧ post = match config !! "postprocess" with
             | Some (JString file) => postprocess_events (n1) windowSize file
             | _ => []
             end.
Proof.
  intros Harea Hsky Hpost.
  destruct (value_areaLight_read config (set_windowSize windowSize this, gl) Harea)
    as (light & Hlight & _).
  rewrite (initialize_steps _ _ _ _ _ light Hlight). exists light.
  destruct Hsky as [Hsky|[file Hsky]], Hpost as [Hpost|[file' Hpost]].
  - rewrite (contains_None _ _ Hsky), (contains_None _ _ Hpost), Hsky, Hpost.
    eexists _, (next_name gl), _, _. split_and!; [|reflexivity..]. cbn [mret M_ret].
    rewrite !app_nil_r. by destruct gl.
  - rewrite (contains_None _ _ Hsky), (contains_Some _ _ _ Hpost), Hsky, Hpost.
    cbn [mret M_ret]. rewrite (initialize_postprocess_run _ _ _ _ _ _ Hpost).
    eexists _, (next_name gl), _, _. split_and!; [|reflexivity..]. reflexivity.
  - rewrite (contains_Some _ _ _ Hsky), (contains_None _ _ Hpost), Hsky, Hpost.
    rewrite (initialize_sky_run _ _ _ _ Hsky). cbn [mret M_ret].
    eexists _, (4 + next_name gl), _, _.
    split_and!; [|reflexivity..]. cbn [next_name log]. by rewrite app_nil_r.
  - rewrite (contains_Some _ _ _ Hsky), (contains_Some _ _ _ Hpost), Hsky, Hpost.
    rewrite (initialize_sky_run _ _ _ _ Hsky).
    rewrite (initialize_postprocess_run _ _ _ _ _ _ Hpost). cbn [next_name log].
    eexists _, (4 + next_name gl), _, _.
    split_and!; [|reflexivity..]. cbn [next_name log]. by rewrite <- app_assoc.
Qed.

(** X15.  On an uninitialized renderer and a configuration whose "sky" and
    "postprocess" are each absent or a string, [initialize] succeeds, and
    [destroy] afterwards releases exactly the objects [initialize]
    created, each of them once, and deletes the materials it set. *)
Theorem destroy_releases_what_initialize_created constructed windowSize
    (config : gmap string (@json F)) this gl :
  areaLight_readable config →
  uninitialized this →
  absent_or_string config "sky" →
  absent_or_string config "postprocess" →
  ∃ this' gl' events,
    initialize constructed windowSize config (this, gl) = ((this', gl'), inr ())
    ∧ log gl' = log gl ++ events
    ∧ released (destroy this') ≡ₚ created events
    ∧ NoDup (released (destroy this'))
    ∧ materials_released (destroy this')
      = option_list (skyMaterial this') ++ option_list (postprocessMaterial this').
Proof.
  intros Harea [Hs Hp] Hsky Hpost.
  destruct (initialize_succeeds constructed windowSize config this gl Harea Hsky Hpost)
    as (light & this1 & n1 & sky & post & -> & -> & Hn & -> & ->).
  do 3 eexists. split; [reflexivity|]. cbn [log]. split; [reflexivity|].
  destruct this. cbn in Hs, Hp. subst.
  destruct Hsky as [Hsky|[file Hsky]], Hpost as [Hpost|[file' Hpost]];
    rewrite Hsky, Hpost; cbn.
  - split_and!; [done|apply NoDup_nil; exact I|done].
  - split_and!; [|distinct_objects|done].
    apply Permutation_skip. etrans; [apply Permutation_swap|]. apply Permutation_skip.
    apply Permutation_swap.
  - split_and!; [done|distinct_objects|done].
  - split_and!; [|distinct_objects|done].
    do 5 apply Permutation_skip. etrans; [apply Permutation_swap|]. apply Permutation_skip.
    apply Permutation_swap.
Qed.

Ltac not_among :=
  rewrite ?elem_of_cons, elem_of_nil; intros Hin;
  repeat (destruct Hin as [Hin|Hin]); try discriminate Hin;
  try (injection Hin; lia); try done.

(** X16.  [initialize] and [render] together, with post-processing
    configured: the texture that the post-processing material samples is
    the colour attachment of the framebuffer that [initialize] created;
    a frame with a camera draws the scene into that framebuffer and
    nowhere else, and ends by binding framebuffer 0, setting up that
    material and drawing the triangle with the vertex array of
    [initialize]. *)
Theorem postprocess_pass_samples_the_scene constructed windowSize
    (config : gmap string (@json F)) this gl (world : World) gl2 i j owner camera file bound :
  areaLight_readable config →
  absent_or_string config "sky" →
  config !! "postprocess" = Some (JString file) →
  first_camera world = Some (i, j) →
  world !! i = Some owner →
  components owner !! j = Some (CameraC camera) →
  ∃ this1 gl1 setup m color,
    initialize constructed windowSize config (this, gl) = ((this1, gl1), inr ())
    ∧ log gl1 = log gl ++ setup
    ∧ postprocessMaterial this1 = Some m
    ∧ texture m = Some color
    ∧ (∀ b, (postprocessFrameBuffer this1, GL_COLOR_ATTACHMENT0, color)
            ∈ attachments b setup)
    ∧ ∃ frame scene before,
        log (render this1 world gl2).2 = log gl2 ++ frame
        ∧ targets bound frame = scene ++ [(0, glDrawArrays GL_TRIANGLES 0 3)]
        ∧ Forall (λ drawn, drawn.1 = postprocessFrameBuffer this1) scene
        ∧ frame = before ++ [glBindFramebuffer GL_FRAMEBUFFER 0;
                             Material_setup m;
                             glBindVertexArray (postProcessVertexArray this1);
                             glDrawArrays GL_TRIANGLES 0 3].
Proof.
  intros Harea Hsky Hpost Hcam Hi Hj.
  destruct (initialize_succeeds constructed windowSize config this gl Harea Hsky
              (or_intror (ex_intro _ file Hpost)))
    as (light & this0 & n1 & sky & post & Hrun & Hthis0 & Hn & Hevents & ->).
  rewrite Hpost in Hrun. rewrite Hrun. clear Hrun.
  eexists _, _, _, _, _. split; [reflexivity|]. cbn [log]. split; [reflexivity|].
  split; [by destruct this0|]. split; [reflexivity|]. split.
  { intros b. assert (Hquiet : ∀ b', attachments b' sky = [] ∧
                        ∀ rest, attachments b' (sky ++ rest) = attachments b' rest).
    { intros b'. subst sky. destruct (config !! "sky") as [[]|]; by split. }
    rewrite (proj2 (Hquiet b)). destruct this0. cbn. apply elem_of_cons. by left. }
  set (this1 := set_postprocessMaterial _ _).
  rewrite (render_with_camera _ _ _ _ _ _ _ Hcam Hi Hj). cbn [fst snd log].
  assert (Hm : postprocessMaterial (sorted_frame this1 world owner)
               = Some (postprocess_material (constructed TexturedMaterial) n1))
    by by destruct this0.
  assert (Hfb : postprocessFrameBuffer (sorted_frame this1 world owner)
                = postprocessFrameBuffer this1) by by destruct this0.
  assert (Hva : postProcessVertexArray (sorted_frame this1 world owner)
                = postProcessVertexArray this1) by by destruct this0.
  eexists _, _, _. split; [reflexivity|].
  rewrite (targets_frame_events (sorted_frame this1 world owner) _ camera _ bound).
  unfold frame_events. rewrite Hm, Hfb, Hva. split_and!.
  - rewrite !app_assoc. reflexivity.
  - rewrite <- !app_assoc. rewrite !Forall_app. split_and!.
    + by repeat constructor.
    + apply Forall_fmap, Forall_true. done.
    + destruct (skyMaterial (sorted_frame this1 world owner)),
        (skySphere (sorted_frame this1 world owner)); by repeat constructor.
    + apply Forall_fmap, Forall_true. done.
  - rewrite !app_assoc. reflexivity.
Qed.

(** X17.  [initialize] run twice with the same configuration: the second
    run overwrites the members of the first without releasing anything,
    so [destroy] releases the objects of the second run only, and no
    object created by the first run is ever released. *)
Theorem initialize_twice_leaks_the_first constructed windowSize
    (config : gmap string (@json F)) this gl :
  areaLight_readable config →
  uninitialized this →
  absent_or_string config "sky" →
  absent_or_string config "postprocess" →
  ∃ this1 gl1 this2 gl2 first second,
    initialize constructed windowSize config (this, gl) = ((this1, gl1), inr ())
    ∧ initialize constructed windowSize config (this1, gl1) = ((this2, gl2), inr ())
    ∧ log gl2 = log gl ++ first ++ second
    ∧ released (destroy this2) ≡ₚ created second
    ∧ ∀ o, o ∈ created first → o ∉ released (destroy this2).
Proof.
  intros Harea [Hs Hp] Hsky Hpost.
  destruct (initialize_succeeds constructed windowSize config this gl Harea Hsky Hpost)
    as (light & this0 & n1 & sky & post & Hrun & Hthis0 & Hn & Hevents & Hpostev).
  match type of Hrun with
  | _ = ((?t, ?g), _) =>
      destruct (initialize_succeeds constructed windowSize config t g Harea Hsky Hpost)
        as (light' & this0' & n1' & sky' & post' & Hrun' & Hthis0' & Hn' & Hevents' & Hpostev')
  end.
  eexists _, _, _, _, (sky ++ post), (sky' ++ post').
  split; [exact Hrun|]. split; [exact Hrun'|]. clear Hrun Hrun'. cbn [log next_name] in *.
  split; [by rewrite <- !app_assoc|].
  destruct this. cbn in Hs, Hp. subst.
  destruct Hsky as [Hsky|[file Hsky]], Hpost as [Hpost|[file' Hpost]];
    rewrite Hsky, Hpost; cbn.
  - split; [done|]. intros o Ho. by apply elem_of_nil in Ho.
  - split.
    + apply Permutation_skip. etrans; [apply Permutation_swap|]. apply Permutation_skip.
      apply Permutation_swap.
    + apply Forall_forall. repeat (apply Forall_cons; split; [not_among|]).
      apply Forall_nil; exact I.
  - split; [done|].
    apply Forall_forall. repeat (apply Forall_cons; split; [not_among|]).
    apply Forall_nil; exact I.
  - split.
    + do 5 apply Permutation_skip. etrans; [apply Permutation_swap|].
      apply Permutation_skip. apply Permutation_swap.
    + apply Forall_forall. repeat (apply Forall_cons; split; [not_among|]).
      apply Forall_nil; exact I.
Qed.

(** *** With the laws of the scalars *)

Section FurtherLaws.
Context {SL : ScalarLaws F}.
Add Ring scalar_ring_more : (scalar_ring (F := F)).

(** *** The matrices of a frame *)

(** X8.  The model matrix of the sky, the one value that "transform" is
    set to on the sky's shader, maps the point [(x, y, z)] of the sphere
    to [cameraCenter + 2 * orthoHeight * (x, y, z)]: the sphere is
    centred on the camera and scaled by twice the camera's orthographic
    height. *)
Theorem sky_sphere_around_camera (this : @ForwardRenderer F) camera VP cameraCenter m :
  let size := (orthoHeight camera * (f1 + f1))%F in
  ∃ model,
    (∀ v, ShaderProgram_set (shader m) "transform" v
            ∈ draw_sky this camera VP cameraCenter m ↔ v = UMat4 model)
    ∧ ∀ x y z,
        mat4_mul_vec4 model (Vec4 x y z f1)
        = Vec4 (v3x cameraCenter + size * x)%F (v3y cameraCenter + size * y)%F
               (v3z cameraCenter + size * z)%F f1.
Proof.
  intros size. eexists. split.
  - intros v. unfold draw_sky. rewrite elem_of_app, !elem_of_cons, elem_of_nil.
    split.
    + intros [[H|[H|[H|[H|[]]]]]|H]; try discriminate H; [by injection H|].
      destruct (skySphere this); [|by apply elem_of_nil in H].
      apply list_elem_of_singleton in H. discriminate H.
    + intros ->. left. right. right. by left.
  - intros x y z. subst size. destruct cameraCenter as [cx cy cz].
    lazy [mat4_mul mat4_combine mat4_mul_vec4 vec4_add vec4_scale translate scale
          mat4_identity col0 col1 col2 col3 v4x v4y v4z v4w v3x v3y v3z].
    f_equal; ring.
Qed.

(** X9.  The camera centre used for sorting and lighting is the
    translation column of the transform of the camera's owner, the
    forward vector is its negated third column, and the depth by which
    transparent commands are sorted is the dot product of (camera centre
    minus command centre) with that third column. *)
Theorem camera_axes (m : @mat4 F) :
  camera_center m = translation_of m
  ∧ camera_forward m
    = Vec3 (- v4x (col2 m))%F (- v4y (col2 m))%F (- v4z (col2 m))%F
  ∧ ∀ k, depth_along (camera_forward m) (camera_center m) k
         = dot (vec3_sub (translation_of m) (center k)) (vec3_of_vec4 (col2 m)).
Proof.
  destruct m as [[a0 a1 a2 a3] [b0 b1 b2 b3] [c0 c1 c2 c3] [d0 d1 d2 d3]].
  split_and!.
  - lazy [camera_center translation_of vec3_of_vec4 mat4_mul_vec4 vec4_add vec4_scale
          col0 col1 col2 col3 v4x v4y v4z v4w]. f_equal; ring.
  - lazy [camera_forward mat4_mul_vec4 vec4_add vec4_scale
          col0 col1 col2 col3 v4x v4y v4z v4w]. f_equal; ring.
  - intros [M [x y z] ? ?].
    lazy [depth_along dot vec3_sub center camera_forward camera_center translation_of
          vec3_of_vec4 mat4_mul_vec4 vec4_add vec4_scale
          col0 col1 col2 col3 v4x v4y v4z v4w v3x v3y v3z]. ring.
Qed.

Lemma elem_of_collected_commands (world : list (@Entity F)) k :
  k ∈ collected_commands world → ∃ e, e ∈ world ∧ command_of e = Some k.
Proof.
  unfold collected_commands. by rewrite list_elem_of_omap.
Qed.

(** X10.  Every command of a frame carries the transform of an entity of
    the scene, and its centre is the translation column of that
    transform. *)
Theorem command_center_is_translation (this : @ForwardRenderer F) (world : World) gl k :
  k ∈ commands (render this world gl).1.1 →
  center k = translation_of (localToWorld k)
  ∧ ∃ e, e ∈ world ∧ localToWorld k = getLocalToWorldMatrix e.
Proof.
  destruct (render_commands this world gl) as (-> & _ & _).
  intros (e & He & Hk)%elem_of_collected_commands. unfold command_of in Hk.
  destruct (getComponent as_MeshRenderer e) as [[? mr]|]; [|done].
  injection Hk as <-. cbn. split; [|by exists e].
  unfold world_origin. apply origin_is_translation.
Qed.

End FurtherLaws.

End Further.

(** * The properties on the sample inputs *)

#[global] Instance Z_ScalarLaws : ScalarLaws Z.
Proof.
  split.
  - exact InitialRing.Zth.
  - intros a. apply Z.ltb_irrefl.
  - intros a b c ?%Z.ltb_lt ?%Z.ltb_lt. apply Z.ltb_lt. lia.
  - intros a b ?%Z.ltb_ge ?%Z.ltb_ge. lia.
Qed.


Lemma transparent_back_to_front_witness :
  first_camera Sample.scene = Some (4, 1)
  ∧ Sample.scene !! 4 = Some Sample.operator
  ∧ let cameraForward := camera_forward (getLocalToWorldMatrix Sample.operator) in
    let cameraCenter := camera_center (getLocalToWorldMatrix Sample.operator) in
    let depth := depth_along cameraForward cameraCenter in
    let sorted := transparentCommands (render Sample.fresh Sample.scene Sample.context).1.1 in
    (∀ n A B, sorted !! n = Some A → sorted !! S n = Some B → fge (depth A) (depth B))
    ∧ (∀ A B, transparent_before cameraForward cameraCenter A B = true
              ↔ fltb (depth B) (depth A) = true)
    ∧ sorted ≡ₚ collected_transparent Sample.scene.
Proof.
  split; [reflexivity|]. split; [reflexivity|].
  apply (transparent_back_to_front Sample.fresh Sample.scene Sample.context 4 1 Sample.operator); reflexivity.
Defined.

Lemma no_camera_dark_scene : no_camera Sample.dark_scene.
Proof. apply (first_camera_from_None 0). reflexivity. Qed.

Lemma render_without_camera_effects_witness :
  no_camera Sample.dark_scene
  ∧ (render Sample.fresh Sample.dark_scene Sample.context).2 = Sample.context
  ∧ resources (render Sample.fresh Sample.dark_scene Sample.context).1.1
    = resources Sample.fresh.
Proof.
  split; [exact no_camera_dark_scene|].
  destruct (render_without_camera_effects Sample.fresh Sample.dark_scene Sample.context
              no_camera_dark_scene) as (H1 & H2 & _).
  exact (conj H1 H2).
Defined.

Lemma no_camera_frame_writes_light_caches :
  no_camera Sample.dark_scene
  ∧ (render Sample.fresh Sample.dark_scene Sample.context).1.2 ≠ Sample.dark_scene
  ∧ deref Sample.dark_scene (0, 0) = Some (SpotLightC Sample.lamp)
  ∧ sl_worldPosition Sample.lamp = (Vec3 9 9 9)%Z
  ∧ deref (render Sample.fresh Sample.dark_scene Sample.context).1.2 (0, 0)
    = Some (SpotLightC {| sl_worldPosition := (Vec3 1 2 3)%Z;
                          sl_intensity := sl_intensity Sample.lamp;
                          sl_color := sl_color Sample.lamp;
                          sl_lightDecay := sl_lightDecay Sample.lamp |}).
Proof.
  split; [exact no_camera_dark_scene|].
  split; [|split; [reflexivity|split; reflexivity]].
  intros H. apply (f_equal (λ w, deref w (0, 0))) in H. vm_compute in H. discriminate H.
Qed.


Lemma draw_order_witness :
  first_camera Sample.scene = Some (4, 1)
  ∧ Sample.scene !! 4 = Some Sample.operator
  ∧ components Sample.operator !! 1 = Some (CameraC Sample.eye)
  ∧ let this' := (render Sample.full Sample.scene Sample.context).1.1 in
    opaqueCommands this' = collected_opaque Sample.scene
    ∧ transparentCommands this' ≡ₚ collected_transparent Sample.scene
    ∧ ordered_by (transparent_before
                    (camera_forward (getLocalToWorldMatrix Sample.operator))
                    (camera_center (getLocalToWorldMatrix Sample.operator)))
                 (transparentCommands this')
    ∧ draw_calls (log (render Sample.full Sample.scene Sample.context).2)
      = draw_calls (log Sample.context)
        ++ ((λ k, Mesh_draw (mesh k)) <$> opaqueCommands this')
        ++ match skyMaterial Sample.full, skySphere Sample.full with
           | Some _, Some sphere => [Mesh_draw sphere]
           | _, _ => []
           end
        ++ ((λ k, Mesh_draw (mesh k)) <$> transparentCommands this')
        ++ match postprocessMaterial Sample.full with
           | Some _ => [glDrawArrays GL_TRIANGLES 0 3]
           | None => []
           end.
Proof.
  split; [reflexivity|]. split; [reflexivity|]. split; [reflexivity|].
  apply (draw_order (SL := Z_ScalarLaws) Sample.full Sample.scene Sample.context 4 1
           Sample.operator Sample.eye); reflexivity.
Defined.

Example draw_order_sample :
  draw_calls (log (render Sample.full Sample.scene Sample.context).2)
  = [Mesh_draw 9; Mesh_draw 1; Mesh_draw 8; Mesh_draw 7; glDrawArrays GL_TRIANGLES 0 3].
Proof. vm_compute. reflexivity. Qed.

Lemma material_binding_witness :
  let this' := (render Sample.full Sample.scene Sample.context).1.1 in
  let world' := (render Sample.full Sample.scene Sample.context).1.2 in
  let cameraCenter := camera_center (getLocalToWorldMatrix Sample.operator) in
  let lit := draw_transparent this' world' Sample.view_projection cameraCenter
               Sample.lit_command in
  let unlit := draw_transparent this' world' Sample.view_projection cameraCenter
                 Sample.unlit_command in
  (lit = draw_opaque this' world' Sample.view_projection cameraCenter Sample.lit_command
   ∨ lit = draw_transparent this' world' Sample.view_projection cameraCenter
             Sample.lit_command)
  ∧ is_DefaultMaterial (material Sample.lit_command) = true
  ∧ is_DefaultMaterial (material Sample.unlit_command) = false
  ∧ lit_binding this' world' Sample.view_projection cameraCenter Sample.lit_command lit
  ∧ unlit = [Material_setup (material Sample.unlit_command);
             ShaderProgram_set (shader (material Sample.unlit_command)) "transform"
               (UMat4 (mat4_mul Sample.view_projection (localToWorld Sample.unlit_command)));
             Mesh_draw (mesh Sample.unlit_command)].
Proof.
  cbv zeta. split; [right; reflexivity|]. split; [reflexivity|]. split; [reflexivity|].
  split.
  - apply (material_binding _ _ _ _ _ _ (or_intror eq_refl)). reflexivity.
  - apply (material_binding _ _ _ _ Sample.unlit_command _ (or_intror eq_refl)). reflexivity.
Defined.

Lemma sky_at_maximum_depth_witness :
  let v := mat4_mul_vec4 (sky_Camera Sample.view_projection) Sample.point in
  ShaderProgram_set (shader (sky_material 0)) "Camera"
      (UMat4 (sky_Camera Sample.view_projection))
    ∈ draw_sky Sample.full Sample.eye Sample.view_projection
        (camera_center (getLocalToWorldMatrix Sample.operator)) (sky_material 0)
  ∧ v4z v = v4w v
  ∧ v4w v = v4w (mat4_mul_vec4 Sample.view_projection Sample.point)
  ∧ v4x v = v4x (mat4_mul_vec4 Sample.view_projection Sample.point)
  ∧ v4y v = v4y (mat4_mul_vec4 Sample.view_projection Sample.point).
Proof.
  exact (sky_at_maximum_depth (SL := Z_ScalarLaws) Sample.full Sample.eye Sample.view_projection
           (camera_center (getLocalToWorldMatrix Sample.operator)) (sky_material 0)
           Sample.point).
Defined.

Lemma spot_light_world_position_witness :
  (0, 0) ∈ spotLights (render Sample.fresh Sample.scene Sample.context).1.1
  ∧ ∃ owner l,
      (render Sample.fresh Sample.scene Sample.context).1.2 !! 0 = Some owner
      ∧ components owner !! 0 = Some (SpotLightC l)
      ∧ sl_worldPosition l = translation_of (getLocalToWorldMatrix owner)
      ∧ sl_worldPosition l
        = vec3_of_vec4 (mat4_mul_vec4 (getLocalToWorldMatrix owner) (Vec4 f0 f0 f0 f1)).
Proof.
  assert (H : (0, 0) ∈ spotLights (render Sample.fresh Sample.scene Sample.context).1.1).
  { vm_compute. constructor. }
  split; [exact H|].
  exact (spot_light_world_position (SL := Z_ScalarLaws) Sample.fresh Sample.scene
           Sample.context (0, 0) H).
Defined.

Lemma cone_light_world_direction_witness :
  (0, 3) ∈ coneLights (render Sample.fresh Sample.scene Sample.context).1.1
  ∧ ∃ owner l0 l,
      Sample.scene !! 0 = Some owner
      ∧ components owner !! 3 = Some (ConeLightC l0)
      ∧ deref (render Sample.fresh Sample.scene Sample.context).1.2 (0, 3)
        = Some (ConeLightC l)
      ∧ cl_direction l = cl_direction l0
      ∧ cl_worldDirection l
        = vec3_of_vec4 (mat4_mul_vec4 (getLocalToWorldMatrix owner)
                                      (vec4_of_vec3 (cl_direction l) f0))
      ∧ cl_worldDirection l
        = vec3_of_vec4
            (vec4_add
               (vec4_add (vec4_scale (col0 (getLocalToWorldMatrix owner)) (v3x (cl_direction l)))
                         (vec4_scale (col1 (getLocalToWorldMatrix owner)) (v3y (cl_direction l))))
               (vec4_scale (col2 (getLocalToWorldMatrix owner)) (v3z (cl_direction l))))
      ∧ cl_worldPosition l = translation_of (getLocalToWorldMatrix owner).
Proof.
  assert (H : (0, 3) ∈ coneLights (render Sample.fresh Sample.scene Sample.context).1.1).
  { vm_compute. do 2 constructor. }
  split; [exact H|].
  exact (cone_light_world_direction (SL := Z_ScalarLaws) Sample.fresh Sample.scene
           Sample.context (0, 3) H).
Defined.

Lemma directional_light_untouched_witness :
  (1, 1) ∈ directionalLights (render Sample.fresh Sample.scene Sample.context).1.1
  ∧ (∃ l, deref Sample.scene (1, 1) = Some (DirectionalLightC l)
          ∧ deref (render Sample.fresh Sample.scene Sample.context).1.2 (1, 1)
            = Some (DirectionalLightC l))
  ∧ ∀ q l, deref Sample.scene q = Some (DirectionalLightC l) →
           deref (render Sample.fresh Sample.scene Sample.context).1.2 q
           = Some (DirectionalLightC l).
Proof.
  assert (H : (1, 1) ∈ directionalLights (render Sample.fresh Sample.scene Sample.context).1.1).
  { vm_compute. constructor. }
  split; [exact H|].
  exact (directional_light_untouched Sample.fresh Sample.scene Sample.context (1, 1) H).
Defined.

Lemma lights_collected_per_entity_witness :
  Sample.scene !! 0 = Some Sample.lights
  ∧ let this' := (render Sample.fresh Sample.scene Sample.context).1.1 in
    length (filter (λ p, p.1 = 0) (directionalLights this')) ≤ 1
    ∧ length (filter (λ p, p.1 = 0) (spotLights this')) ≤ 1
    ∧ filter (λ p, p.1 = 0) (coneLights this')
      = (λ x, (0, x.1)) <$> getAllComponents as_ConeLight Sample.lights
    ∧ length (filter (λ p, p.1 = 0) (coneLights this'))
      = length (omap as_ConeLight (components Sample.lights)).
Proof.
  split; [reflexivity|].
  destruct (lights_collected_per_entity Sample.fresh Sample.scene Sample.context 0
              Sample.lights eq_refl) as (H1 & H2 & H3 & H4 & _).
  exact (conj H1 (conj H2 (conj H3 H4))).
Defined.

Example lights_collected_sample :
  spotLights (render Sample.fresh Sample.scene Sample.context).1.1 = [(0, 0)]
  ∧ coneLights (render Sample.fresh Sample.scene Sample.context).1.1 = [(0, 1); (0, 3)]
  ∧ directionalLights (render Sample.fresh Sample.scene Sample.context).1.1 = [(1, 1)].
Proof. vm_compute. done. Qed.

Lemma initialize_allocates_by_key_witness :
  areaLight_readable Sample.only_postprocess
  ∧ areaLight_readable Sample.only_sky
  ∧ postprocess_only_outcome Sample.as_constructed (800, 600)%Z
      Sample.only_postprocess Sample.fresh Sample.context
  ∧ sky_only_outcome Sample.as_constructed (800, 600)%Z
      Sample.only_sky Sample.fresh Sample.context "assets/textures/sky.jpg".
Proof.
  assert (H1 : areaLight_readable Sample.only_postprocess)
    by (apply areaLight_readable_absent; reflexivity).
  assert (H2 : areaLight_readable Sample.only_sky)
    by (apply areaLight_readable_absent; reflexivity).
  split; [exact H1|]. split; [exact H2|]. split.
  - apply (proj1 (initialize_allocates_by_key Sample.as_constructed (800, 600)%Z
                    Sample.only_postprocess Sample.fresh Sample.context H1)
             "assets/shaders/postprocess/vignette.frag"); reflexivity.
  - apply (proj2 (initialize_allocates_by_key Sample.as_constructed (800, 600)%Z
                    Sample.only_sky Sample.fresh Sample.context H2)
             "assets/textures/sky.jpg"); reflexivity.
Defined.

Example std_sort_sample :
  std_sort (λ a b, (b <? a)%Z) [2; 5; 1; 5; 3]%Z = [5; 5; 3; 2; 1]%Z.
Proof. reflexivity. Qed.

Example GLint_cast_sample :
  GLint_cast 3 = 3%Z ∧ GLint_cast (2 ^ 31) = (- 2 ^ 31)%Z.
Proof. split; reflexivity. Qed.

Example indexed_sample : indexed "coneLights" 12 "range" = "coneLights[12].range".
Proof. reflexivity. Qed.

Example sky_Camera_sample :
  sky_Camera (F := Z) mat4_identity
  = (Mat4 (Vec4 1 0 0 0) (Vec4 0 1 0 0) (Vec4 0 0 0 0) (Vec4 0 0 1 1))%Z
  ∧ mat4_mul_vec4 (sky_Camera Sample.view_projection) Sample.point = (Vec4 3 (-4) 1 1)%Z.
Proof. split; reflexivity. Qed.

(** A configuration whose [areaLight] is not a colour: [initialize] throws
    before it creates anything. *)
Example initialize_type_error_sample :
  initialize Sample.as_constructed (800, 600)%Z
    (<["areaLight" := JArray [JNumber 1%Z; JNumber 2%Z]]> Sample.only_sky)
    (Sample.fresh, Sample.context)
  = ((Sample.fresh, Sample.context), inl type_error).
Proof. vm_compute. reflexivity. Qed.

(** One opaque lit mesh, one directional light and a camera at the origin,
    on a renderer without sky and post-processing: one clear, one draw,
    and the directional count bound to 1. *)
Example single_mesh_frame_sample :
  let world :=
    [Sample.placed 0 0 (-3)
       [MeshRendererC {| mr_mesh := 7; mr_material := Sample.plain DefaultMaterial 3 false |};
        DirectionalLightC Sample.sun];
     Sample.placed 0 0 0 [CameraC Sample.eye]] in
  let events := log (render Sample.fresh world Sample.context).2 in
  List.filter is_clear events = [glClear [GL_COLOR_BUFFER_BIT; GL_DEPTH_BUFFER_BIT]]
  ∧ draw_calls events = [Mesh_draw 7]
  ∧ ShaderProgram_set 3 "directionalLightCount" (UInt 1) ∈ events.
Proof.
  vm_compute. split; [reflexivity|]. split; [reflexivity|]. do 5 right. repeat constructor.
Qed.

(** * The further properties on the sample inputs *)

Lemma first_camera_is_used_witness :
  Configured.lit_stage !! 1 = Some Sample.operator
  ∧ components Sample.operator !! 1 = Some (CameraC Sample.eye)
  ∧ log (render Sample.full Configured.lit_stage Sample.context).2
    = log Sample.context
      ++ frame_events (render Sample.full Configured.lit_stage Sample.context).1.1
           (render Sample.full Configured.lit_stage Sample.context).1.2
           Sample.eye (camera_center (getLocalToWorldMatrix Sample.operator)).
Proof.
  split; [reflexivity|]. split; [reflexivity|].
  apply (first_camera_is_used Sample.full Configured.lit_stage Sample.context 1 1
           Sample.operator Sample.eye); [reflexivity|reflexivity| |].
  - intros i' e c Hlt He Hc. destruct i' as [|i']; [|lia].
    injection He as <-. cbn in Hc. rewrite !elem_of_cons, elem_of_nil in Hc.
    destruct Hc as [->|[->|[->|[->|[->|[]]]]]]; reflexivity.
  - intros j' c Hlt Hc. destruct j' as [|j']; [|lia]. injection Hc as <-. reflexivity.
Defined.

Lemma frame_targets_witness :
  first_camera Sample.scene = Some (4, 1)
  ∧ Sample.scene !! 4 = Some Sample.operator
  ∧ components Sample.operator !! 1 = Some (CameraC Sample.eye)
  ∧ ∃ events,
      log (render Sample.full Sample.scene Sample.context).2 = log Sample.context ++ events
      ∧ targets 0 events
        = [(5, glClear [GL_COLOR_BUFFER_BIT; GL_DEPTH_BUFFER_BIT]);
           (5, Mesh_draw 9); (5, Mesh_draw 1); (5, Mesh_draw 8); (5, Mesh_draw 7);
           (0, glDrawArrays GL_TRIANGLES 0 3)].
Proof.
  split; [reflexivity|]. split; [reflexivity|]. split; [reflexivity|].
  destruct (frame_targets Sample.full Sample.scene Sample.context 4 1 Sample.operator
              Sample.eye 0 eq_refl eq_refl eq_refl) as (events & Hlog & Htargets).
  exists events. split; [exact Hlog|]. rewrite Htargets. vm_compute. reflexivity.
Defined.

Lemma sky_sphere_around_camera_witness :
  let cameraCenter := camera_center (getLocalToWorldMatrix Sample.operator) in
  ∃ model,
    (∀ v, ShaderProgram_set (shader (sky_material 0)) "transform" v
            ∈ draw_sky Sample.full Sample.eye Sample.view_projection cameraCenter
                (sky_material 0) ↔ v = UMat4 model)
    ∧ ∀ x y z : Z,
        mat4_mul_vec4 model (Vec4 x y z 1%Z)
        = (Vec4 (v3x cameraCenter + 5 * (1 + 1) * x) (v3y cameraCenter + 5 * (1 + 1) * y)
                (v3z cameraCenter + 5 * (1 + 1) * z) 1)%Z.
Proof.
  exact (sky_sphere_around_camera (SL := Z_ScalarLaws) Sample.full Sample.eye
           Sample.view_projection (camera_center (getLocalToWorldMatrix Sample.operator))
           (sky_material 0)).
Defined.

Lemma camera_axes_witness :
  camera_center (getLocalToWorldMatrix Sample.operator) = (Vec3 0 0 10)%Z
  ∧ camera_forward (getLocalToWorldMatrix Sample.operator) = (Vec3 0 0 (-1))%Z.
Proof.
  destruct (camera_axes (SL := Z_ScalarLaws) (getLocalToWorldMatrix Sample.operator))
    as (Hcenter & Hforward & _).
  split; [rewrite Hcenter|rewrite Hforward]; reflexivity.
Defined.

Lemma command_center_is_translation_witness :
  Sample.lit_command ∈ commands (render Sample.fresh Sample.scene Sample.context).1.1
  ∧ center Sample.lit_command = translation_of (localToWorld Sample.lit_command)
  ∧ ∃ e, e ∈ Sample.scene ∧ localToWorld Sample.lit_command = getLocalToWorldMatrix e.
Proof.
  assert (H : Sample.lit_command
              ∈ commands (render Sample.fresh Sample.scene Sample.context).1.1).
  { apply list_elem_of_lookup. exists 2. reflexivity. }
  split; [exact H|].
  exact (command_center_is_translation (SL := Z_ScalarLaws) Sample.fresh Sample.scene
           Sample.context Sample.lit_command H).
Defined.

Lemma initialize_without_features_witness :
  areaLight_readable (∅ : gmap string (@json Z))
  ∧ initialize Sample.as_constructed (1024, 768)%Z ∅ (Sample.fresh, Sample.context)
    = ((set_areaLight (Vec3 1 1 1)%Z (set_windowSize (1024, 768)%Z Sample.fresh),
        Sample.context), inr ()).
Proof.
  assert (H : areaLight_readable (∅ : gmap string (@json Z)))
    by (apply areaLight_readable_absent; reflexivity).
  split; [exact H|].
  destruct (initialize_without_features Sample.as_constructed (1024, 768)%Z ∅ Sample.fresh
              Sample.context H eq_refl eq_refl) as (light & Hrun & Hdefault & _).
  rewrite Hrun, (Hdefault eq_refl). reflexivity.
Defined.

Lemma initialize_areaLight_type_error_witness :
  Configured.areaLight_not_a_colour !! "areaLight"
  = Some (JArray [JNumber 1%Z; JNumber 2%Z])
  ∧ initialize Sample.as_constructed (800, 600)%Z Configured.areaLight_not_a_colour
      (Sample.full, Sample.context)
    = ((set_windowSize (800, 600)%Z Sample.full, Sample.context), inl type_error).
Proof.
  split; [reflexivity|].
  apply (initialize_areaLight_type_error Sample.as_constructed (800, 600)%Z
           Configured.areaLight_not_a_colour Sample.full Sample.context
           (JArray [JNumber 1%Z; JNumber 2%Z]) type_error); reflexivity.
Defined.

Lemma initialize_sky_type_error_leaks_witness :
  areaLight_readable Configured.sky_not_a_string
  ∧ uninitialized Sample.fresh
  ∧ Configured.sky_not_a_string !! "sky" = Some (JNumber 3%Z)
  ∧ ∃ this' gl' events,
      initialize Sample.as_constructed (800, 600)%Z Configured.sky_not_a_string
        (Sample.fresh, Sample.context) = ((this', gl'), inl type_error)
      ∧ log gl' = log Sample.context ++ events
      ∧ created events = [a_mesh 1; a_shader 2]
      ∧ skySphere this' = Some 1
      ∧ skyMaterial this' = None
      ∧ postprocessMaterial this' = None
      ∧ destroy this' = [].
Proof.
  assert (H : areaLight_readable Configured.sky_not_a_string)
    by (apply areaLight_readable_absent; reflexivity).
  assert (H0 : uninitialized Sample.fresh) by (split; reflexivity).
  split; [exact H|]. split; [exact H0|]. split; [reflexivity|].
  exact (initialize_sky_type_error_leaks Sample.as_constructed (800, 600)%Z
           Configured.sky_not_a_string Sample.fresh Sample.context (JNumber 3%Z) type_error
           H H0 eq_refl eq_refl).
Defined.

Lemma initialize_postprocess_type_error_leaks_witness :
  areaLight_readable Configured.postprocess_not_a_string
  ∧ uninitialized Sample.fresh
  ∧ Configured.postprocess_not_a_string !! "postprocess" = Some (JBool true)
  ∧ ∃ this' gl' events,
      initialize Sample.as_constructed (800, 600)%Z Configured.postprocess_not_a_string
        (Sample.fresh, Sample.context) = ((this', gl'), inl type_error)
      ∧ log gl' = log Sample.context ++ events
      ∧ created events
        = [a_framebuffer 1; a_texture 2; a_texture 3; a_vertex_array 4; a_sampler 5;
           a_shader 6]
      ∧ postprocessFrameBuffer this' = 1
      ∧ colorTarget this' = Some 2
      ∧ depthTarget this' = Some 3
      ∧ postprocessMaterial this' = None
      ∧ destroy this' = [].
Proof.
  assert (H : areaLight_readable Configured.postprocess_not_a_string)
    by (apply areaLight_readable_absent; reflexivity).
  assert (H0 : uninitialized Sample.fresh) by (split; reflexivity).
  split; [exact H|]. split; [exact H0|]. split; [reflexivity|].
  exact (initialize_postprocess_type_error_leaks Sample.as_constructed (800, 600)%Z
           Configured.postprocess_not_a_string Sample.fresh Sample.context (JBool true)
           type_error H H0 eq_refl eq_refl eq_refl).
Defined.

Lemma areaLight_readable_both : areaLight_readable Configured.both.
Proof. apply areaLight_readable_absent; reflexivity. Qed.
Lemma absent_or_string_both_sky : absent_or_string Configured.both "sky".
Proof. right. eexists. reflexivity. Qed.
Lemma absent_or_string_both_postprocess : absent_or_string Configured.both "postprocess".
Proof. right. eexists. reflexivity. Qed.
Lemma uninitialized_fresh : uninitialized Sample.fresh.
Proof. split; reflexivity. Qed.

Lemma destroy_releases_what_initialize_created_witness :
  areaLight_readable Configured.both
  ∧ uninitialized Sample.fresh
  ∧ absent_or_string Configured.both "sky"
  ∧ absent_or_string Configured.both "postprocess"
  ∧ ∃ this' gl' events,
      initialize Sample.as_constructed (800, 600)%Z Configured.both
        (Sample.fresh, Sample.context) = ((this', gl'), inr ())
      ∧ log gl' = log Sample.context ++ events
      ∧ released (destroy this') ≡ₚ created events
      ∧ NoDup (released (destroy this'))
      ∧ materials_released (destroy this')
        = option_list (skyMaterial this') ++ option_list (postprocessMaterial this').
Proof.
  split; [exact areaLight_readable_both|]. split; [exact uninitialized_fresh|].
  split; [exact absent_or_string_both_sky|].
  split; [exact absent_or_string_both_postprocess|].
  exact (destroy_releases_what_initialize_created Sample.as_constructed (800, 600)%Z
           Configured.both Sample.fresh Sample.context areaLight_readable_both
           uninitialized_fresh absent_or_string_both_sky absent_or_string_both_postprocess).
Defined.

Lemma postprocess_pass_samples_the_scene_witness :
  areaLight_readable Configured.both
  ∧ absent_or_string Configured.both "sky"
  ∧ Configured.both !! "postprocess"
    = Some (JString "assets/shaders/postprocess/vignette.frag")
  ∧ first_camera Sample.scene = Some (4, 1)
  ∧ ∃ this1 gl1 setup m color,
      initialize Sample.as_constructed (800, 600)%Z Configured.both
        (Sample.fresh, Sample.context) = ((this1, gl1), inr ())
      ∧ log gl1 = log Sample.context ++ setup
      ∧ postprocessMaterial this1 = Some m
      ∧ texture m = Some color
      ∧ (∀ b, (postprocessFrameBuffer this1, GL_COLOR_ATTACHMENT0, color)
              ∈ attachments b setup)
      ∧ ∃ frame scene before,
          log (render this1 Sample.scene Sample.context).2 = log Sample.context ++ frame
          ∧ targets 0 frame = scene ++ [(0, glDrawArrays GL_TRIANGLES 0 3)]
          ∧ Forall (λ drawn, drawn.1 = postprocessFrameBuffer this1) scene
          ∧ frame = before ++ [glBindFramebuffer GL_FRAMEBUFFER 0;
                               Material_setup m;
                               glBindVertexArray (postProcessVertexArray this1);
                               glDrawArrays GL_TRIANGLES 0 3].
Proof.
  split; [exact areaLight_readable_both|]. split; [exact absent_or_string_both_sky|].
  split; [reflexivity|]. split; [reflexivity|].
  exact (postprocess_pass_samples_the_scene Sample.as_constructed (800, 600)%Z
           Configured.both Sample.fresh Sample.context Sample.scene Sample.context 4 1
           Sample.operator Sample.eye "assets/shaders/postprocess/vignette.frag" 0
           areaLight_readable_both absent_or_string_both_sky eq_refl eq_refl eq_refl eq_refl).
Defined.

Lemma initialize_twice_leaks_the_first_witness :
  areaLight_readable Configured.both
  ∧ uninitialized Sample.fresh
  ∧ absent_or_string Configured.both "sky"
  ∧ absent_or_string Configured.both "postprocess"
  ∧ ∃ this1 gl1 this2 gl2 first second,
      initialize Sample.as_constructed (800, 600)%Z Configured.both
        (Sample.fresh, Sample.context) = ((this1, gl1), inr ())
      ∧ initialize Sample.as_constructed (800, 600)%Z Configured.both (this1, gl1)
        = ((this2, gl2), inr ())
      ∧ log gl2 = log Sample.context ++ first ++ second
      ∧ released (destroy this2) ≡ₚ created second
      ∧ ∀ o, o ∈ created first → o ∉ released (destroy this2).
Proof.
  split; [exact areaLight_readable_both|]. split; [exact uninitialized_fresh|].
  split; [exact absent_or_string_both_sky|].
  split; [exact absent_or_string_both_postprocess|].
  exact (initialize_twice_leaks_the_first Sample.as_constructed (800, 600)%Z
           Configured.both Sample.fresh Sample.context areaLight_readable_both
           uninitialized_fresh absent_or_string_both_sky absent_or_string_both_postprocess).
Defined.

(** Both features configured on a fresh renderer: ten objects are
    created, and [destroy] releases the same ten and the two materials. *)
Example initialize_destroy_sample :
  let '(this', gl', _) :=
    initialize Sample.as_constructed (800, 600)%Z Configured.both
      (Sample.fresh, Sample.context) in
  created (log gl')
  = [a_mesh 1; a_shader 2; a_texture 3; a_sampler 4; a_framebuffer 5; a_texture 6;
     a_texture 7; a_vertex_array 8; a_sampler 9; a_shader 10]
  ∧ released (destroy this')
    = [a_mesh 1; a_shader 2; a_texture 3; a_sampler 4; a_framebuffer 5; a_vertex_array 8;
       a_texture 6; a_texture 7; a_sampler 9; a_shader 10]
  ∧ length (materials_released (destroy this')) = 2.
Proof. vm_compute. done. Qed.

(** The frame of [Sample.scene] on the renderer with both features:
    everything but the last triangle goes to framebuffer 5. *)
Example frame_targets_sample :
  (targets 0 (log (render Sample.full Sample.scene Sample.context).2)).*1
  = [5; 5; 5; 5; 5; 0].
Proof. vm_compute. reflexivity. Qed.
